(** * Ira companion chat backend (main.py): a shallow embedding

    The development follows main.py top to bottom:
    - [Text]: the string primitives the program relies on (str.lower,
      str.strip, re.findall over a character class, re.sub of whitespace
      runs, slicing, decimal and hexadecimal formatting);
    - the data model, the exceptions and the monad of effects (the Redis
      database, the clock, the uuid generator);
    - [Redis]: the five commands the program issues (GET, SET, RPUSH,
      LTRIM, LRANGE), with the semantics of the Redis documentation;
    - section [Program]: the key helpers, detect_lang_safe, the chat
      session store (create_chat_for_user, list_user_chats,
      append_message, get_chat_history), the /api/send handler and its
      streaming generator, over the configuration and the external
      services taken as section variables;
    - the facts, and concrete runs.

    A Python str is modelled as a [string] whose characters are code
    points below 256; the character classes below are the restrictions
    of Python's Unicode classes to that range. *)

From Stdlib Require Import ZArith NArith Ascii String DecimalString Lia.
From stdpp Require Import gmap strings list fin_maps.

(** ** Text primitives *)
Module Text.

(** Code point of a character. *)
Definition ord (c : ascii) : nat := nat_of_ascii c.

(** str.isspace / the regex class \s (both are Py_UNICODE_ISSPACE):
    TAB..CR, FS..US, SPACE, NEL (0x85) and NBSP (0xA0). *)
Definition is_space (c : ascii) : bool :=
  let n := ord c in
  ((9 <=? n) && (n <=? 13)) || ((28 <=? n) && (n <=? 32))
  || (n =? 133) || (n =? 160).

Definition is_upper_ascii (c : ascii) : bool :=
  let n := ord c in (65 <=? n) && (n <=? 90).

Definition is_lower_ascii (c : ascii) : bool :=
  let n := ord c in (97 <=? n) && (n <=? 122).

(** The regex class [a-zA-Z']. *)
Definition is_word_char (c : ascii) : bool :=
  is_lower_ascii c || is_upper_ascii c || (ord c =? 39).

(** str.lower on one character: A-Z, and the Latin-1 capitals
    0xC0..0xDE except the multiplication sign 0xD7, move up by 32.
    Texts with code points above U+00FF are outside this model; two of
    those, U+0130 and U+212A, have an ASCII letter in their lower case,
    so nothing below is to be read as a statement about such texts. *)
Definition lower_char (c : ascii) : ascii :=
  let n := ord c in
  if is_upper_ascii c || ((192 <=? n) && (n <=? 222) && negb (n =? 215))
  then ascii_of_nat (n + 32) else c.

Fixpoint lower (s : string) : string :=
  match s with
  | EmptyString => EmptyString
  | String c s' => String (lower_char c) (lower s')
  end.

(** Does the string begin with a character of the class [p]? *)
Definition starts (p : ascii -> bool) (s : string) : bool :=
  match s with
  | EmptyString => false
  | String c _ => p c
  end.

(** re.findall(r"[p]+", s): the maximal runs of characters of class
    [p], left to right. *)
Fixpoint findall (p : ascii -> bool) (s : string) : list string :=
  match s with
  | EmptyString => []
  | String c s' =>
      if p c then
        match starts p s', findall p s' with
        | true, w :: ws => String c w :: ws
        | _, ws => String c EmptyString :: ws
        end
      else findall p s'
  end.

(** re.sub(r"\s+", " ", s): every maximal run of whitespace becomes one
    space; the space is emitted at the last character of the run. *)
Fixpoint sub_space_runs (s : string) : string :=
  match s with
  | EmptyString => EmptyString
  | String c s' =>
      if is_space c then
        if starts is_space s' then sub_space_runs s'
        else String " " (sub_space_runs s')
      else String c (sub_space_runs s')
  end.

(** str.lstrip, str.rstrip, str.strip (whitespace). *)
Fixpoint lstrip (s : string) : string :=
  match s with
  | EmptyString => EmptyString
  | String c s' => if is_space c then lstrip s' else s
  end.

Fixpoint rstrip (s : string) : string :=
  match s with
  | EmptyString => EmptyString
  | String c s' =>
      match rstrip s' with
      | EmptyString => if is_space c then EmptyString else String c EmptyString
      | r => String c r
      end
  end.

Definition strip (s : string) : string := lstrip (rstrip s).

(** str.split() with no argument: the maximal runs of non-whitespace. *)
Definition split_ws (s : string) : list string :=
  findall (fun c => negb (is_space c)) s.

(** sep.join(l) *)
Definition join (sep : string) (l : list string) : string := String.concat sep l.

(** s.startswith(p) *)
Definition startswith (p s : string) : bool := String.prefix p s.

(** s[:n] *)
Definition slice_to (n : nat) (s : string) : string := String.substring 0 n s.

(** str(n) for a natural number. *)
Definition str_of_nat (n : nat) : string := NilEmpty.string_of_uint (Nat.to_uint n).

(** One lower-case hexadecimal digit. *)
Definition hex_digit (d : N) : ascii :=
  match d with
  | 0%N => "0" | 1%N => "1" | 2%N => "2" | 3%N => "3"
  | 4%N => "4" | 5%N => "5" | 6%N => "6" | 7%N => "7"
  | 8%N => "8" | 9%N => "9" | 10%N => "a" | 11%N => "b"
  | 12%N => "c" | 13%N => "d" | 14%N => "e" | _ => "f"
  end%char.

(** The [k] lowest hexadecimal digits of [n], most significant first:
    Python's '%0kx' % n for n < 16^k. *)
Fixpoint hex_digits (k : nat) (n : N) : string :=
  match k with
  | O => EmptyString
  | S k' => hex_digits k' (n / 16) +:+ String (hex_digit (n mod 16)) EmptyString
  end.

(** Is every character of the string in the class [p]? *)
Fixpoint all_chars (p : ascii -> bool) (s : string) : bool :=
  match s with
  | EmptyString => true
  | String c s' => p c && all_chars p s'
  end.

(** The last character of a string. *)
Fixpoint last_char (s : string) : option ascii :=
  match s with
  | EmptyString => None
  | String c EmptyString => Some c
  | String _ s' => last_char s'
  end.

(** The newline character and the one-character string "\n". *)
Definition nl : string := String (ascii_of_nat 10) EmptyString.

End Text.

Import Text.

(** ** Data model *)

(** A reading of time.time(). The program stores readings and never
    computes with them. *)
Definition timestamp := Z.

(** An entry of a user's chat list:
    {"chat_id": cid, "title": title, "created": time.time()} *)
Record chat_rec := ChatRec { chat_id : string; title : string; created : timestamp }.

(** A message of a chat: {"role": role, "content": content, "ts": time.time()} *)
Record message := Message { role : string; content : string; ts : timestamp }.

(** A str held by the store. The program stores plain text (the language
    code) and JSON documents; json.dumps and json.loads are modelled as
    the lossless codec they are on these records, so a JSON document is
    kept decoded. *)
Inductive payload :=
| Plain (s : string)
| ChatsJson (l : list chat_rec)
| MsgJson (m : message).

(** A Redis value: a string or a list of strings. *)
Inductive rval :=
| RString (v : payload)
| RList (l : list payload).

(** ** Exceptions, results and the effect monad *)

Inductive exn :=
| HTTPException (status_code : nat) (detail : string)
| PyException (cls : string) (msg : string).

(** str(err) *)
Definition exn_str (e : exn) : string :=
  match e with
  | HTTPException c d => str_of_nat c +:+ ": " +:+ d
  | PyException _ msg => msg
  end.

Inductive result (A : Type) :=
| Ok (a : A)
| Raise (e : exn).
Arguments Ok {A} a.
Arguments Raise {A} e.

(** What a request can observe and change: the Redis database, and how
    many readings of the clock and of the uuid generator were taken. *)
Record world := World { db : gmap string rval; ticks : nat; draws : nat }.

Definition set_db (d : gmap string rval) (w : world) : world :=
  {| db := d; ticks := ticks w; draws := draws w |}.

Definition M (A : Type) : Type := world -> result A * world.

Definition ret {A} (a : A) : M A := fun w => (Ok a, w).
Definition raise {A} (e : exn) : M A := fun w => (Raise e, w).
Definition lift {A} (r : result A) : M A := fun w => (r, w).
Definition bind {A B} (m : M A) (k : A -> M B) : M B :=
  fun w => match m w with
           | (Ok a, w') => k a w'
           | (Raise e, w') => (Raise e, w')
           end.

Declare Scope py_scope.
Delimit Scope py_scope with py.
Notation "x <- m ;; k" := (bind m (fun x => k))
  (at level 100, m at next level, right associativity) : py_scope.
Notation "m ;; k" := (bind m (fun _ => k))
  (at level 100, right associativity) : py_scope.
Local Open Scope py_scope.

(** ** The key-value store *)
Module Redis.

Definition wrongtype : exn :=
  PyException "ResponseError" "WRONGTYPE Operation against a key holding the wrong kind of value".

(** The elements that LRANGE returns and LTRIM keeps: both indices are
    inclusive, a negative index counts from the end, an index before the
    head is clamped to the head, one after the tail to the tail. *)
Definition range {A} (l : list A) (start stop : Z) : list A :=
  let llen := Z.of_nat (length l) in
  let start := if (start <? 0)%Z then (llen + start)%Z else start in
  let stop := if (stop <? 0)%Z then (llen + stop)%Z else stop in
  let start := if (start <? 0)%Z then 0%Z else start in
  if (stop <? start)%Z || (llen <=? start)%Z then []
  else
    let stop := if (llen <=? stop)%Z then (llen - 1)%Z else stop in
    firstn (Z.to_nat (stop - start + 1)) (skipn (Z.to_nat start) l).

(** GET key *)
Definition get (k : string) : M (option payload) :=
  fun w => match db w !! k with
           | None => (Ok None, w)
           | Some (RString v) => (Ok (Some v), w)
           | Some (RList _) => (Raise wrongtype, w)
           end.

(** SET key value: overwrites whatever the key held. *)
Definition set (k : string) (v : payload) : M unit :=
  fun w => (Ok tt, set_db (<[k := RString v]> (db w)) w).

(** RPUSH key value: creates the list when the key is absent; answers
    the new length. *)
Definition rpush (k : string) (v : payload) : M nat :=
  fun w => match db w !! k with
           | None => (Ok 1, set_db (<[k := RList [v]]> (db w)) w)
           | Some (RList l) => (Ok (S (length l)), set_db (<[k := RList (l ++ [v])]> (db w)) w)
           | Some (RString _) => (Raise wrongtype, w)
           end.

(** LTRIM key start stop: a list trimmed to nothing is removed. *)
Definition ltrim (k : string) (start stop : Z) : M unit :=
  fun w => match db w !! k with
           | None => (Ok tt, w)
           | Some (RList l) =>
               match range l start stop with
               | [] => (Ok tt, set_db (delete k (db w)) w)
               | l' => (Ok tt, set_db (<[k := RList l']> (db w)) w)
               end
           | Some (RString _) => (Raise wrongtype, w)
           end.

(** LRANGE key start stop: the empty list for an absent key. *)
Definition lrange (k : string) (start stop : Z) : M (list payload) :=
  fun w => match db w !! k with
           | None => (Ok [], w)
           | Some (RList l) => (Ok (range l start stop), w)
           | Some (RString _) => (Raise wrongtype, w)
           end.

End Redis.

(** ** json.loads at the two places the program decodes *)

Definition json_error : exn := PyException "JSONDecodeError" "Expecting value".
Definition type_error : exn := PyException "TypeError" "unexpected JSON document".

Definition json_loads_chats (v : payload) : result (list chat_rec) :=
  match v with
  | ChatsJson l => Ok l
  | Plain _ => Raise json_error
  | MsgJson _ => Raise type_error
  end.

Definition json_loads_msg (v : payload) : result message :=
  match v with
  | MsgJson m => Ok m
  | Plain _ => Raise json_error
  | ChatsJson _ => Raise type_error
  end.

(** [json.loads(x) for x in items] *)
Fixpoint loads_all (items : list payload) : result (list message) :=
  match items with
  | [] => Ok []
  | x :: xs =>
      match json_loads_msg x with
      | Raise e => Raise e
      | Ok m => match loads_all xs with
                | Raise e => Raise e
                | Ok ms => Ok (m :: ms)
                end
      end
  end.

(** r.get(key) or "[]" *)
Definition or_empty_array (raw : option payload) : payload :=
  match raw with
  | None => ChatsJson []
  | Some (Plain EmptyString) => ChatsJson []
  | Some v => v
  end.

(** ** Redis key helpers *)

Definition user_chats_key (uid : string) : string := "user:" +:+ uid +:+ ":chats".

Definition chat_history_key (uid cid : string) : string :=
  "chat:" +:+ uid +:+ ":" +:+ cid +:+ ":history".

Definition user_lang_key (uid : string) : string := "user:" +:+ uid +:+ ":lang".

(** ** The completion provider's stream *)

(** What reading chunk.text does: the attribute is missing (hasattr is
    False), or has a value, or reading it raises an exception other
    than AttributeError (which hasattr lets through). *)
Inductive attr :=
| NoAttr
| AttrValue (s : string)
| AttrRaises (e : exn).

(** One item of the provider's stream: its text attribute and str(chunk). *)
Record chunk := Chunk { chunk_text : attr; chunk_str : string }.

(** A finite stream: its items, then StopIteration ([None]) or an
    exception raised by the iteration. *)
Record stream := Stream { chunks : list chunk; ending : option exn }.

(** The body handed to StreamingResponse: iter([...]) or the generator
    event_stream(), a closure over uid, cid and the provider's stream. *)
Inductive body :=
| IterBody (frags : list string)
| EventStream (uid cid : string) (s : stream).

Record response := StreamingResponse { resp_body : body; media_type : string }.

(** The JSON object posted to /api/send; [None] is an absent key. *)
Record send_request := SendRequest {
  req_uid : option string;
  req_chat_id : option string;
  req_message : option string }.

(** ** The program *)
Section Program.

Set Default Proof Using "Type".

(** MAX_CONTEXT = int(os.getenv("MAX_CONTEXT", "20")) *)
Variable MAX_CONTEXT : Z.
(** The successive readings of time.time() and of uuid.uuid4().int. *)
Variable clock : nat -> timestamp.
Variable uuid4 : nat -> N.
(** langdetect.detect, deterministic since DetectorFactory.seed = 0. *)
Variable detect : string -> result string.
(** genai.GenerativeModel(MODEL_NAME).generate_content(prompt, stream=True) *)
Variable generate_content : string -> result stream.

Definition time_time : M timestamp :=
  fun w => (Ok (clock (ticks w)), {| db := db w; ticks := S (ticks w); draws := draws w |}).

Definition uuid_uuid4 : M N :=
  fun w => (Ok (uuid4 (draws w)), {| db := db w; ticks := ticks w; draws := S (draws w) |}).

(** str(u) for a UUID of integer value u: 32 hexadecimal digits in
    groups of 8-4-4-4-12. *)
Definition uuid_str (u : N) : string :=
  let h := hex_digits 32 (u mod 2 ^ 128) in
  String.substring 0 8 h +:+ "-" +:+ String.substring 8 4 h +:+ "-" +:+
  String.substring 12 4 h +:+ "-" +:+ String.substring 16 4 h +:+ "-" +:+
  String.substring 20 12 h.

(** *** Utilities *)

Definition hindi_keywords : list string :=
  [ "kya"; "kaise"; "hai"; "hain"; "nahi"; "haan"; "tum"; "mera"; "tera";
    "kyu"; "kyon"; "batao"; "pyaar"; "yaar"; "acha"; "theek"; "samjha"; "kar";
    "kya"; "kuch"; "kal"; "abhi"; "chalo"; "bolo" ].

Definition english_words : list string :=
  [ "i"; "you"; "the"; "is"; "are"; "love"; "good"; "ok"; "what"; "how"; "do" ].

(** w in lexicon *)
Definition member (w : string) (lexicon : list string) : bool :=
  existsb (String.eqb w) lexicon.

(** sum(1 for w in words if w in lexicon) *)
Fixpoint count_hits (lexicon words : list string) : nat :=
  match words with
  | [] => 0
  | w :: ws => (if member w lexicon then 1 else 0) + count_hits lexicon ws
  end.

(** The try/except around detect(text). *)
Definition statistical_code (text : string) : string :=
  match detect text with
  | Ok code => code
  | Raise _ => "en"
  end.

(** re.findall(r"[a-zA-Z']+", text.lower()) *)
Definition words_of (text : string) : list string :=
  findall is_word_char (lower text).

Definition hindi_hits (text : string) : nat := count_hits hindi_keywords (words_of text).
Definition eng_hits (text : string) : nat := count_hits english_words (words_of text).

Definition detect_lang_safe (text : string) : result string :=
  let code := statistical_code text in
  let hindi_hits := hindi_hits text in
  let eng_hits := eng_hits text in
  if startswith "hi" code || (2 <=? hindi_hits) then Ok "hi"
  else if negb (hindi_hits =? 0) && negb (eng_hits =? 0) then Ok "hi"
  else Ok "en".

(** title or f"Chat {len(chatlist) + 1}": the given title unless it is
    None or empty. *)
Definition title_or_default (t : option string) (n : nat) : string :=
  match t with
  | Some (String c t') => String c t'
  | _ => "Chat " +:+ str_of_nat (n + 1)
  end.

Definition create_chat_for_user (uid : string) (title : option string) : M string :=
  u <- uuid_uuid4 ;;
  let cid := slice_to 8 (uuid_str u) in
  raw <- Redis.get (user_chats_key uid) ;;
  chatlist <- lift (json_loads_chats (or_empty_array raw)) ;;
  let title := title_or_default title (length chatlist) in
  now <- time_time ;;
  let chatlist := chatlist ++ [ {| chat_id := cid; title := title; created := now |} ] in
  Redis.set (user_chats_key uid) (ChatsJson chatlist) ;;
  ret cid.

Definition list_user_chats (uid : string) : M (list chat_rec) :=
  raw <- Redis.get (user_chats_key uid) ;;
  lift (json_loads_chats (or_empty_array raw)).

Definition append_message (uid cid role content : string) : M unit :=
  let key := chat_history_key uid cid in
  now <- time_time ;;
  let msg := {| role := role; content := content; ts := now |} in
  Redis.rpush key (MsgJson msg) ;;
  Redis.ltrim key (- MAX_CONTEXT) (-1).

Definition get_chat_history (uid cid : string) : M (list message) :=
  let key := chat_history_key uid cid in
  items <- Redis.lrange key 0 (-1) ;;
  lift (loads_all items).

(** *** POST /api/send *)

Definition fallback : string := "Sorry, thoda issue ho gaya, try again".

(** The f-string of a context line. *)
Definition context_line (m : message) : string := role m +:+ ": " +:+ content m.

Definition build_prompt (context_text user_lang user_msg : string) : string :=
  "You are Ira, a warm and affectionate companion. Follow these rules strictly:" +:+ nl +:+
  "- Reply in 5 to 10 words only." +:+ nl +:+
  "- Keep responses incomplete (do not end with a final punctuation)." +:+ nl +:+
  "- Tone: friendly, caring, sometimes romantic when appropriate; add emoji naturally." +:+ nl +:+
  "- Sound like a close friend and ask gentle follow-up questions when needed." +:+ nl +:+
  "- Mirror the user's language. The user's last language code: " +:+
  user_lang +:+ nl +:+
  "- Avoid repeating earlier assistant replies." +:+ nl +:+
  "- Use the conversation context below." +:+ nl +:+ nl +:+
  "Conversation:" +:+ nl +:+ context_text +:+ nl +:+ nl +:+
  "User: " +:+ user_msg +:+ nl +:+ "Assistant:".

(** The piece taken from a chunk:
    chunk.text if hasattr(chunk, "text") and chunk.text else str(chunk) *)
Definition piece_of (c : chunk) : result string :=
  match chunk_text c with
  | NoAttr => Ok (chunk_str c)
  | AttrValue EmptyString => Ok (chunk_str c)
  | AttrValue s => Ok s
  | AttrRaises e => Raise e
  end.

(** The fragment yielded by the except clause: f"\n[Error: {err}]" *)
Definition error_fragment (e : exn) : string := nl +:+ "[Error: " +:+ exn_str e +:+ "]".

(** The try/except of event_stream: the loop over the stream from the
    point where [collected] holds what was gathered so far. Answers the
    fragments yielded from here on and the final value of collected. *)
Fixpoint stream_loop (cs : list chunk) (fin : option exn) (collected : string)
  : list string * string :=
  match cs with
  | [] =>
      match fin with
      | None => ([], collected)
      | Some err => ([error_fragment err], collected)
      end
  | c :: cs' =>
      match piece_of c with
      | Raise err => ([error_fragment err], collected)
      | Ok piece =>
          let (yielded, final) := stream_loop cs' fin (collected +:+ piece) in
          (piece :: yielded, final)
      end
  end.

(** re.sub(r"\s+", " ", collected).strip() *)
Definition normalize (collected : string) : string := strip (sub_space_runs collected).

(** The generator event_stream(), run to exhaustion: the fragments it
    yields, and the effect of its finally clause. *)
Definition event_stream (uid cid : string) (s : stream) : M (list string) :=
  let (yielded, collected) := stream_loop (chunks s) (ending s) "" in
  let final := normalize collected in
  match final with
  | EmptyString => ret yielded
  | _ => append_message uid cid "assistant" final ;; ret yielded
  end.

Definition api_send (data : send_request) : M response :=
  let uid := default "demo_user" (req_uid data) in
  let cid := req_chat_id data in
  let user_msg := strip (default "" (req_message data)) in
  match user_msg with
  | EmptyString => raise (HTTPException 400 "message required")
  | _ =>
    cid <- match cid with
           | Some (String c t) => ret (String c t)
           | _ => create_chat_for_user uid None
           end ;;
    append_message uid cid "user" user_msg ;;
    detected <- lift (detect_lang_safe user_msg) ;;
    Redis.set (user_lang_key uid) (Plain detected) ;;
    history <- get_chat_history uid cid ;;
    let context_text := join nl (map context_line history) in
    raw <- Redis.get (user_lang_key uid) ;;
    (* r.get(user_lang_key(uid)) or "en"; the key was set to plain text
       three lines above, so no JSON document is read here *)
    user_lang <- match raw with
                 | None | Some (Plain EmptyString) => ret "en"
                 | Some (Plain s) => ret s
                 | Some _ => raise type_error
                 end ;;
    let prompt := build_prompt context_text user_lang user_msg in
    match generate_content prompt with
    | Raise _ =>
        append_message uid cid "assistant" fallback ;;
        ret (StreamingResponse (IterBody [fallback]) "text/plain")
    | Ok stream =>
        ret (StreamingResponse (EventStream uid cid stream) "text/plain")
    end
  end.

(** Starlette iterating the body of a response to the end: the
    fragments sent to the client. *)
Definition drain (b : body) : M (list string) :=
  match b with
  | IterBody frags => ret frags
  | EventStream uid cid s => event_stream uid cid s
  end.

(** A whole send-message call: the handler, then the streaming of its
    response. *)
Definition send_message (data : send_request) : M (list string) :=
  resp <- api_send data ;;
  drain (resp_body resp).

(** *** The other routes *)

(** The context handed to the template index.html (the request object
    left out). *)
Record index_context := IndexContext { index_chats : list chat_rec; index_uid : string }.

(** GET /: uid is the query parameter, "demo_user" when absent. A user
    without chats gets one before the page is rendered. *)
Definition index (q_uid : option string) : M index_context :=
  let uid := default "demo_user" q_uid in
  chats <- list_user_chats uid ;;
  chats <- match chats with
           | [] => create_chat_for_user uid None ;; list_user_chats uid
           | _ => ret chats
           end ;;
  ret {| index_chats := chats; index_uid := uid |}.

(** The context handed to the template chat.html. *)
Record chat_context := ChatContext {
  ctx_chats : list chat_rec; ctx_cid : string; ctx_uid : string;
  ctx_history : list message }.

(** GET /chat/{cid} *)
Definition open_chat (q_uid : option string) (cid : string) : M chat_context :=
  let uid := default "demo_user" q_uid in
  chats <- list_user_chats uid ;;
  history <- get_chat_history uid cid ;;
  ret {| ctx_chats := chats; ctx_cid := cid; ctx_uid := uid; ctx_history := history |}.



(** GET /api/chats *)
Definition api_chats (q_uid : option string) : M (list chat_rec) :=
  list_user_chats (default "demo_user" q_uid).

(** The creations of a list of titles for one user, in order; answers
    the identifiers. *)
Fixpoint run_creates (uid : string) (titles : list (option string)) : M (list string) :=
  match titles with
  | [] => ret []
  | t :: rest =>
      cid <- create_chat_for_user uid t ;;
      cids <- run_creates uid rest ;;
      ret (cid :: cids)
  end.

(** *** Sequences of calls *)

(** One call append_message(uid, cid, role, content). *)
Record append_call := AppendCall {
  call_uid : string; call_cid : string; call_role : string; call_content : string }.

(** The calls of a list, one after the other; stops at the first that raises. *)
Fixpoint run_appends (calls : list append_call) : M unit :=
  match calls with
  | [] => ret tt
  | c :: rest =>
      append_message (call_uid c) (call_cid c) (call_role c) (call_content c) ;;
      run_appends rest
  end.

(** The call that appends the pair (role, content) to the chat (uid, cid). *)
Definition call_on (uid cid : string) (rc : string * string) : append_call :=
  {| call_uid := uid; call_cid := cid; call_role := fst rc; call_content := snd rc |}.

(** The message that an append at reading number [t] of the clock stores. *)
Definition stamped (t : nat) (rc : string * string) : message :=
  {| role := fst rc; content := snd rc; ts := clock t |}.

(** The messages m1..mK that K successive appends store when the first
    one takes reading number [t]. *)
Fixpoint stamp_from (t : nat) (rcs : list (string * string)) : list message :=
  match rcs with
  | [] => []
  | rc :: rest => stamped t rc :: stamp_from (S t) rest
  end.

(** The items of a chat's history list as the store holds them. *)
Definition chat_items (w : world) (uid cid : string) : list payload :=
  match db w !! chat_history_key uid cid with
  | Some (RList l) => l
  | _ => []
  end.

(** The chat (uid, cid) holds exactly the messages [ms], oldest first. *)
Definition holds_history (w : world) (uid cid : string) (ms : list message) : Prop :=
  chat_items w uid cid = map MsgJson ms /\
  forall v, db w !! chat_history_key uid cid <> Some (RString v).

(** The store as this program leaves it: a chat-list key holds the JSON
    of a chat list, a history key a list of JSON messages, a language
    key plain text. *)
Definition wf (w : world) : Prop :=
  (forall uid v, db w !! user_chats_key uid = Some v -> exists l, v = RString (ChatsJson l)) /\
  (forall uid cid v, db w !! chat_history_key uid cid = Some v ->
     exists ms, v = RList (map MsgJson ms)) /\
  (forall uid v, db w !! user_lang_key uid = Some v -> exists s, v = RString (Plain s)).

(** No list of the store is longer than the context window. *)
Definition bounded (w : world) : Prop :=
  forall k l, db w !! k = Some (RList l) -> (Z.of_nat (length l) <= MAX_CONTEXT)%Z.

(** The world before anything ran. *)
Definition empty_world : world := {| db := ∅; ticks := 0; draws := 0 |}.

(** The last step of api_send, named to state what the handler does:
    its try/except around the provider call and the response built in
    each branch. *)
Definition respond (uid cid : string) (answer : result stream) : M response :=
  match answer with
  | Raise _ =>
      append_message uid cid "assistant" fallback ;;
      ret (StreamingResponse (IterBody [fallback]) "text/plain")
  | Ok stream => ret (StreamingResponse (EventStream uid cid stream) "text/plain")
  end.

(** The pieces event_stream gathers from a stream: those of the chunks
    read before the first exception. *)
Fixpoint pieces_before (cs : list chunk) : list string :=
  match cs with
  | [] => []
  | c :: cs' =>
      match piece_of c with
      | Ok piece => piece :: pieces_before cs'
      | Raise _ => []
      end
  end.

(** The exception that ends the loop, if one does: that of the first
    chunk whose text cannot be read, else that of the iteration. *)
Fixpoint first_error (cs : list chunk) (fin : option exn) : option exn :=
  match cs with
  | [] => fin
  | c :: cs' =>
      match piece_of c with
      | Ok _ => first_error cs' fin
      | Raise e => Some e
      end
  end.

(** The concatenation of a list of strings. *)
Definition cat (l : list string) : string := fold_right String.append "" l.

(** The fragments a stream delivers to the client. *)
Definition delivered (s : stream) : list string :=
  pieces_before (chunks s) ++
  match first_error (chunks s) (ending s) with
  | None => []
  | Some e => [error_fragment e]
  end.

(** The text the finally clause computes: the normalized concatenation
    of the pieces. *)
Definition committed (s : stream) : string := normalize (cat (pieces_before (chunks s))).

(** The request with its chat identifier filled in. *)
Definition with_chat (data : send_request) (cid : string) : send_request :=
  {| req_uid := req_uid data; req_chat_id := Some cid; req_message := req_message data |}.

(** Does the request leave the chat to the server (no chat_id, or an
    empty one)? *)
Definition no_chat_id (data : send_request) : Prop :=
  req_chat_id data = None \/ req_chat_id data = Some "".

(** Between the worlds [w] and [w'] the text was committed as the
    assistant's turn of the chat by one call of append_message; an empty
    text commits nothing. *)
Definition persisted (uid cid text : string) (w w' : world) : Prop :=
  match text with
  | EmptyString => w' = w
  | _ => append_message uid cid "assistant" text w = (Ok tt, w')
  end.

(** The stream of the scenario: fragments "Hi ", "there\n", " friend",
    then a normal end. *)
Definition three_fragments (r1 r2 r3 : string) : stream :=
  {| chunks := [ {| chunk_text := AttrValue "Hi "; chunk_str := r1 |};
                 {| chunk_text := AttrValue ("there" +:+ nl); chunk_str := r2 |};
                 {| chunk_text := AttrValue " friend"; chunk_str := r3 |} ];
     ending := None |}.

(** Is the string free of the separator ':' of the key helpers? *)
Definition no_colon (s : string) : bool :=
  all_chars (fun c => negb (Ascii.eqb c ":")) s.

(** Does the call write to the history key of the chat (uid, cid)? *)
Definition touches (uid cid : string) (c : append_call) : Prop :=
  chat_history_key (call_uid c) (call_cid c) = chat_history_key uid cid.

(** The last [n] elements of a list, in their order. *)
Definition last_n {A} (n : nat) (l : list A) : list A := skipn (length l - n) l.

(** ** Facts about the text primitives *)

Lemma append_cons c (s t : string) : String c s +:+ t = String c (s +:+ t).
Proof. reflexivity. Qed.

Lemma append_nil_l (t : string) : "" +:+ t = t.
Proof. reflexivity. Qed.

Lemma append_nil_r (s : string) : s +:+ "" = s.
Proof. induction s as [|c s IH]; [reflexivity | now rewrite append_cons, IH]. Qed.

Lemma append_assoc (a b c : string) : (a +:+ b) +:+ c = a +:+ (b +:+ c).
Proof. induction a as [|x a IH]; [reflexivity | now rewrite !append_cons, IH]. Qed.

Lemma length_append (a b : string) :
  String.length (a +:+ b) = String.length a + String.length b.
Proof. induction a as [|x a IH]; [reflexivity | rewrite append_cons; cbn; now rewrite IH]. Qed.

Lemma rstrip_cons_nonspace c s :
  is_space c = false -> rstrip (String c s) = String c (rstrip s).
Proof. intros Hc. cbn. rewrite Hc. now destruct (rstrip s). Qed.

Lemma rstrip_cons_space c s :
  is_space c = true ->
  rstrip (String c s) = match rstrip s with "" => "" | r => String c r end.
Proof. intros Hc. cbn. rewrite Hc. reflexivity. Qed.

Lemma findall_starts p s : starts p s = true -> findall p s <> [].
Proof.
  destruct s as [|c s]; cbn; [discriminate|].
  intros ->. destruct (starts p s), (findall p s); discriminate.
Qed.

Lemma findall_not_starts p s :
  starts p s = false -> s <> "" -> exists c s', s = String c s' /\ p c = false.
Proof. destruct s as [|c s]; cbn; [congruence | eauto]. Qed.

(** Every word of str.split() begins with a non-whitespace character. *)
Lemma split_ws_head_nonspace s w ws :
  split_ws s = w :: ws -> starts (fun c => negb (is_space c)) w = true.
Proof.
  unfold split_ws. revert w ws.
  induction s as [|c s IH]; intros w ws; cbn; [discriminate|].
  destruct (negb (is_space c)) eqn:Hc.
  - destruct (starts _ s), (findall _ s); intros [= <- <-]; cbn; exact Hc.
  - apply IH.
Qed.

(** The join of the words of str.split() is either empty (no word) or
    begins with a non-whitespace character. *)
Lemma join_split_ws_lstrip s : lstrip (join " " (split_ws s)) = join " " (split_ws s).
Proof.
  destruct (split_ws s) as [|w ws] eqn:E; [reflexivity|].
  apply split_ws_head_nonspace in E.
  destruct w as [|c w]; [discriminate|]. cbn in E.
  unfold join. cbn [String.concat].
  destruct ws; cbn [lstrip]; [|rewrite append_cons; cbn [lstrip]];
    destruct (is_space c); try discriminate; reflexivity.
Qed.

(** What re.sub leaves after rstrip, in terms of the words: the words
    joined by single spaces, preceded by one space exactly when the
    text begins with whitespace and has a word. *)
Lemma rstrip_sub_space_runs s :
  rstrip (sub_space_runs s) =
  (if starts is_space s then match split_ws s with [] => "" | _ => " " end else "")
  +:+ join " " (split_ws s).
Proof.
  induction s as [|c s IH]; [reflexivity|].
  cbn [sub_space_runs starts]. unfold split_ws in *. cbn [findall].
  destruct (is_space c) eqn:Hc; cbn [negb].
  - destruct (starts is_space s) eqn:Hs.
    + rewrite IH. reflexivity.
    + rewrite rstrip_cons_space by reflexivity. rewrite IH. rewrite append_nil_l.
      destruct s as [|d s]; [reflexivity|]. cbn in Hs.
      pose proof (findall_starts (fun c => negb (is_space c)) (String d s)) as Hne.
      cbn [starts] in Hne. rewrite Hs in Hne. specialize (Hne eq_refl).
      destruct (findall _ (String d s)) as [|w ws] eqn:E; [congruence|].
      pose proof (split_ws_head_nonspace _ _ _ E) as Hw.
      destruct w as [|x w]; [discriminate|].
      unfold join. cbn [String.concat]. destruct ws; reflexivity.
  - rewrite rstrip_cons_nonspace by exact Hc. rewrite IH. rewrite append_nil_l.
    destruct (starts (fun c => negb (is_space c)) s) eqn:Hs.
    + assert (Hsp : starts is_space s = false).
      { destruct s; [reflexivity|]. cbn in *. now destruct (is_space a). }
      rewrite Hsp, append_nil_l.
      pose proof (findall_starts _ _ Hs) as Hne.
      destruct (findall _ s) as [|w ws]; [congruence|].
      unfold join. cbn [String.concat]. destruct ws; reflexivity.
    + destruct s as [|d s]; [reflexivity|].
      cbn [starts] in Hs |- *.
      assert (Hd : is_space d = true) by now destruct (is_space d).
      rewrite Hd.
      destruct (findall _ (String d s)) as [|w ws]; [reflexivity|].
      unfold join. cbn [String.concat]. rewrite append_cons, append_nil_l.
      destruct ws; reflexivity.
Qed.

Lemma lstrip_space_cons c s : is_space c = true -> lstrip (String c s) = lstrip s.
Proof. intros H. cbn. now rewrite H. Qed.

(** re.sub(r"\s+", " ", s).strip() is " ".join(s.split()). *)
Lemma normalize_join_split s : normalize s = join " " (split_ws s).
Proof.
  unfold normalize, strip. rewrite rstrip_sub_space_runs.
  destruct (starts is_space s); [|now rewrite append_nil_l, join_split_ws_lstrip].
  destruct (split_ws s) eqn:E; [reflexivity|].
  rewrite <- E. rewrite append_cons, append_nil_l.
  rewrite lstrip_space_cons by reflexivity. apply join_split_ws_lstrip.
Qed.

Lemma rstrip_empty s : rstrip s = "" <-> all_chars is_space s = true.
Proof.
  induction s as [|c s IH]; [easy|].
  cbn. destruct (rstrip s) eqn:E.
  - destruct (is_space c); cbn; [exact IH | easy].
  - split; [discriminate|]. intros H. apply andb_prop in H as [_ H].
    apply IH in H. discriminate.
Qed.

Lemma lstrip_empty s : lstrip s = "" <-> all_chars is_space s = true.
Proof.
  induction s as [|c s IH]; [easy|].
  cbn. destruct (is_space c); cbn; [exact IH | easy].
Qed.

Lemma all_chars_rstrip s : all_chars is_space (rstrip s) = all_chars is_space s.
Proof.
  induction s as [|c s IH]; [reflexivity|].
  cbn. destruct (rstrip s) eqn:E.
  - apply rstrip_empty in E. rewrite E.
    destruct (is_space c) eqn:Hc; cbn; rewrite ?Hc; reflexivity.
  - cbn in *. now rewrite IH.
Qed.

(** str.strip() gives the empty string exactly on the strings made of
    whitespace only (the empty string among them). *)
Lemma strip_empty_iff s : strip s = "" <-> all_chars is_space s = true.
Proof. unfold strip. now rewrite lstrip_empty, all_chars_rstrip. Qed.

Lemma length_hex_digits k n : String.length (hex_digits k n) = k.
Proof.
  revert n. induction k as [|k IH]; intros n; [reflexivity|].
  cbn [hex_digits]. rewrite length_append, IH. cbn. lia.
Qed.

Lemma length_substring_0 n s :
  String.length (String.substring 0 n s) = Nat.min n (String.length s).
Proof.
  revert s. induction n as [|n IH]; intros [|c s]; cbn; try reflexivity.
  now rewrite IH.
Qed.

Lemma substring_0_append n a b :
  n <= String.length a -> String.substring 0 n (a +:+ b) = String.substring 0 n a.
Proof.
  revert a. induction n as [|n IH]; intros [|c a] Hn; cbn in Hn; try lia.
  - now destruct b.
  - reflexivity.
  - rewrite append_cons. cbn. rewrite IH by lia. reflexivity.
Qed.

(** The chat identifier str(uuid.uuid4())[:8] has 8 characters: the
    first 8 hexadecimal digits of the UUID. *)
Lemma cid_of_uuid u :
  slice_to 8 (uuid_str u) = String.substring 0 8 (hex_digits 32 (u mod 2 ^ 128))
  /\ String.length (slice_to 8 (uuid_str u)) = 8.
Proof.
  assert (E : slice_to 8 (uuid_str u) = String.substring 0 8 (hex_digits 32 (u mod 2 ^ 128))).
  { unfold slice_to, uuid_str.
    set (h := hex_digits 32 (u mod 2 ^ 128)).
    assert (Hh : String.length h = 32) by apply length_hex_digits.
    rewrite substring_0_append.
    - assert (Hl : String.length (String.substring 0 8 h) = 8)
        by (rewrite length_substring_0, Hh; reflexivity).
      clear Hh. destruct (String.substring 0 8 h) as [|c1 [|c2 [|c3 [|c4 [|c5 [|c6 [|c7 [|c8 [|]]]]]]]]];
        cbn in Hl; try discriminate. reflexivity.
    - rewrite length_substring_0, Hh. cbn. lia. }
  split; [exact E|].
  rewrite E, length_substring_0, length_hex_digits. reflexivity.
Qed.

Lemma last_char_append a b : b <> "" -> last_char (a +:+ b) = last_char b.
Proof.
  intros Hb. induction a as [|c a IH]; [reflexivity|].
  rewrite append_cons. cbn [last_char]. rewrite IH.
  destruct (a +:+ b) eqn:E; [|reflexivity].
  destruct a; [rewrite append_nil_l in E | rewrite append_cons in E]; congruence.
Qed.

(** The three families of keys never collide with one another. *)
Lemma chats_key_not_history uid uid' cid : user_chats_key uid <> chat_history_key uid' cid.
Proof. unfold user_chats_key, chat_history_key. rewrite !append_cons. discriminate. Qed.

Lemma lang_key_not_history uid uid' cid : user_lang_key uid <> chat_history_key uid' cid.
Proof. unfold user_lang_key, chat_history_key. rewrite !append_cons. discriminate. Qed.

Lemma chats_key_not_lang uid uid' : user_chats_key uid <> user_lang_key uid'.
Proof.
  unfold user_chats_key, user_lang_key. intros H.
  rewrite <- !append_assoc in H.
  apply (f_equal last_char) in H.
  rewrite !last_char_append in H by discriminate. discriminate.
Qed.

(** ** Facts about the store commands *)

Ltac no_if t :=
  lazymatch t with
  | context [if _ then _ else _] => fail
  | _ => idtac
  end.

(** Case analysis on the integer comparisons of the goal, innermost first. *)
Ltac zcases :=
  repeat match goal with
         | |- context [(?a <? ?b)%Z] => no_if a; no_if b; destruct (Z.ltb_spec a b)
         | |- context [(?a <=? ?b)%Z] => no_if a; no_if b; destruct (Z.leb_spec a b)
         end.

Lemma range_all {A} (l : list A) : Redis.range l 0 (-1) = l.
Proof.
  unfold Redis.range. destruct l as [|x l]; [reflexivity|].
  remember (x :: l) as xs eqn:Exs.
  assert (Hl : 1 <= length xs) by (subst xs; cbn; lia). clear Exs.
  zcases; cbn [orb]; try lia.
  all: cbn [Z.to_nat skipn]; apply firstn_all2; lia.
Qed.

(** LTRIM key -N -1 keeps the last N elements when N is at least 1. *)
Lemma range_last {A} (l : list A) (n : Z) :
  (1 <= n)%Z -> Redis.range l (- n) (-1) = skipn (length l - Z.to_nat n) l.
Proof.
  intros Hn. unfold Redis.range. destruct l as [|x l].
  { cbn [length]. zcases; cbn [orb]; try lia; reflexivity. }
  remember (x :: l) as xs eqn:Exs.
  assert (Hl : 1 <= length xs) by (subst xs; cbn; lia). clear Exs.
  zcases; cbn [orb]; try lia.
  all: match goal with
       | |- firstn _ (skipn ?a _) = skipn ?b _ => replace a with b by lia
       end.
  all: apply firstn_all2; rewrite length_skipn; lia.
Qed.

Lemma range_map {A B} (f : A -> B) (l : list A) start stop :
  Redis.range (map f l) start stop = map f (Redis.range l start stop).
Proof.
  unfold Redis.range. rewrite length_map.
  repeat match goal with |- context [if ?b then _ else _] => destruct b end;
    try reflexivity; now rewrite skipn_map, firstn_map.
Qed.

Lemma loads_all_map ms : loads_all (map MsgJson ms) = Ok ms.
Proof. induction ms as [|m ms IH]; [reflexivity|]. cbn. now rewrite IH. Qed.

Lemma holds_history_absent w uid cid :
  db w !! chat_history_key uid cid = None -> holds_history w uid cid [].
Proof.
  intros H. unfold holds_history, chat_items. rewrite H. split; [reflexivity | discriminate].
Qed.

Lemma wf_holds_history w uid cid : wf w -> exists ms, holds_history w uid cid ms.
Proof.
  intros (_ & Hh & _). unfold holds_history, chat_items.
  destruct (db w !! chat_history_key uid cid) as [v|] eqn:E.
  - destruct (Hh _ _ _ E) as [ms ->]. exists ms. split; [reflexivity | discriminate].
  - exists []. split; [reflexivity | discriminate].
Qed.

(** get_chat_history reads the chat without changing the world. *)
Lemma get_chat_history_holds w uid cid ms :
  holds_history w uid cid ms -> get_chat_history uid cid w = (Ok ms, w).
Proof.
  intros [Hi Hs]. unfold get_chat_history, bind, Redis.lrange, lift, chat_items in *.
  destruct (db w !! chat_history_key uid cid) as [[v|l]|].
  - now destruct (Hs v).
  - rewrite range_all. subst l. now rewrite loads_all_map.
  - destruct ms; [reflexivity | discriminate].
Qed.

(** append_message on a chat that holds [ms]: one reading of the clock,
    the new message at the end, then the trim; no other key changes. *)
Lemma append_message_holds w uid cid r c ms :
  holds_history w uid cid ms ->
  exists w',
    append_message uid cid r c w = (Ok tt, w') /\
    holds_history w' uid cid
      (Redis.range (ms ++ [ {| role := r; content := c; ts := clock (ticks w) |} ])
                   (- MAX_CONTEXT) (-1)) /\
    ticks w' = S (ticks w) /\ draws w' = draws w /\
    forall k, k <> chat_history_key uid cid -> db w' !! k = db w !! k.
Proof.
  intros [Hi Hs].
  set (m := {| role := r; content := c; ts := clock (ticks w) |}).
  set (key := chat_history_key uid cid) in *.
  assert (Hstep : forall l, map MsgJson ms = l ->
     (db w !! key = None /\ l = [] \/ db w !! key = Some (RList l)) ->
     exists w', append_message uid cid r c w = (Ok tt, w') /\
       holds_history w' uid cid (Redis.range (ms ++ [m]) (- MAX_CONTEXT) (-1)) /\
       ticks w' = S (ticks w) /\ draws w' = draws w /\
       forall k, k <> key -> db w' !! k = db w !! k).
  { intros l Hl Hk.
    assert (Hr : Redis.range (l ++ [MsgJson m]) (- MAX_CONTEXT) (-1)
                 = map MsgJson (Redis.range (ms ++ [m]) (- MAX_CONTEXT) (-1))).
    { rewrite <- range_map, map_app, Hl. reflexivity. }
    unfold append_message, bind, time_time, Redis.rpush, Redis.ltrim, set_db.
    fold key. fold m. cbn [db ticks draws].
    assert (Hpush : exists d, (match db w !! key with
                     | None => (Ok 1, {| db := <[key:=RList [MsgJson m]]> (db w); ticks := S (ticks w); draws := draws w |})
                     | Some (RString _) => (Raise Redis.wrongtype, {| db := db w; ticks := S (ticks w); draws := draws w |})
                     | Some (RList l0) => (Ok (S (length l0)), {| db := <[key:=RList (l0 ++ [MsgJson m])]> (db w); ticks := S (ticks w); draws := draws w |})
                     end) = (Ok d, {| db := <[key:=RList (l ++ [MsgJson m])]> (db w); ticks := S (ticks w); draws := draws w |})).
    { destruct Hk as [[-> ->]| ->]; eauto. }
    destruct Hpush as [d ->]. cbn [db ticks draws].
    rewrite lookup_insert_eq, Hr.
    destruct (Redis.range (ms ++ [m]) (- MAX_CONTEXT) (-1)) as [|m1 rest] eqn:E; cbn [map].
    - eexists. split; [reflexivity|]. cbn [db ticks draws].
      repeat split; try reflexivity.
      + unfold chat_items. cbn [db]. fold key. now rewrite lookup_delete_eq.
      + cbn [db]. fold key. rewrite lookup_delete_eq. discriminate.
      + intros k Hk'. rewrite lookup_delete_ne by congruence.
        now rewrite lookup_insert_ne by congruence.
    - eexists. split; [reflexivity|]. cbn [db ticks draws].
      repeat split; try reflexivity.
      + unfold chat_items. cbn [db]. fold key. now rewrite lookup_insert_eq.
      + cbn [db]. fold key. rewrite lookup_insert_eq. discriminate.
      + intros k Hk'. now rewrite !lookup_insert_ne by congruence. }
  unfold chat_items in Hi. fold key in Hi.
  destruct (db w !! key) as [[v|l]|] eqn:E.
  - now destruct (Hs v).
  - apply (Hstep l); [now symmetry | now right].
  - apply (Hstep []); [now symmetry | now left].
Qed.

Lemma length_range_last {A} (l : list A) (n : Z) :
  (1 <= n)%Z -> (Z.of_nat (length (Redis.range l (- n) (-1))) <= n)%Z.
Proof. intros Hn. rewrite range_last by exact Hn. rewrite length_skipn. lia. Qed.

(** Trimming to the last n, appending, and trimming again is trimming
    the whole once. *)
Lemma skipn_last_app {A} (l l2 : list A) (n : nat) :
  skipn (length (skipn (length l - n) l ++ l2) - n) (skipn (length l - n) l ++ l2)
  = skipn (length (l ++ l2) - n) (l ++ l2).
Proof.
  rewrite !skipn_app, skipn_skipn, !length_app, !length_skipn.
  f_equal; f_equal; lia.
Qed.

Lemma holds_history_lookup w uid cid ms v :
  holds_history w uid cid ms ->
  db w !! chat_history_key uid cid = Some v -> v = RList (map MsgJson ms).
Proof.
  intros [Hi Hs] E. unfold chat_items in Hi. rewrite E in Hi.
  destruct v as [p|l]; [now destruct (Hs p) | now subst].
Qed.

(** append_message keeps the store well formed. *)
Lemma append_message_wf w w' uid cid r c :
  wf w -> append_message uid cid r c w = (Ok tt, w') -> wf w'.
Proof.
  intros Hwf Happ.
  destruct (wf_holds_history w uid cid Hwf) as [ms Hms].
  destruct (append_message_holds w uid cid r c ms Hms) as (w1 & E & Hh & _ & _ & Hk).
  rewrite E in Happ. injection Happ as <-.
  destruct Hwf as (Hc & Hl & Hg). repeat split.
  - intros u v Hv. rewrite Hk in Hv by apply chats_key_not_history. eauto.
  - intros u k v Hv.
    destruct (decide (chat_history_key u k = chat_history_key uid cid)) as [Ek|Ek].
    + rewrite Ek in Hv. eexists. eapply holds_history_lookup; eauto.
    + rewrite Hk in Hv by exact Ek. eauto.
  - intros u v Hv. rewrite Hk in Hv by apply lang_key_not_history. eauto.
Qed.

(** append_message keeps every list within the window when the window
    is at least 1. *)
Lemma append_message_bounded w w' uid cid r c :
  (1 <= MAX_CONTEXT)%Z -> wf w -> bounded w ->
  append_message uid cid r c w = (Ok tt, w') -> bounded w'.
Proof.
  intros Hn Hwf Hb Happ.
  destruct (wf_holds_history w uid cid Hwf) as [ms Hms].
  destruct (append_message_holds w uid cid r c ms Hms) as (w1 & E & Hh & _ & _ & Hk).
  rewrite E in Happ. injection Happ as <-.
  intros k l Hl.
  destruct (decide (k = chat_history_key uid cid)) as [->|Ek].
  - apply (holds_history_lookup _ _ _ _ _ Hh) in Hl. injection Hl as ->.
    rewrite length_map. now apply length_range_last.
  - rewrite Hk in Hl by exact Ek. eauto.
Qed.

Lemma run_appends_cons c rest w :
  run_appends (c :: rest) w =
  match append_message (call_uid c) (call_cid c) (call_role c) (call_content c) w with
  | (Ok _, w') => run_appends rest w'
  | (Raise e, w') => (Raise e, w')
  end.
Proof. reflexivity. Qed.

(** Any sequence of appends runs to the end on a well-formed store and
    keeps it well formed and within the window. *)
Lemma run_appends_invariant calls : forall w,
  (1 <= MAX_CONTEXT)%Z -> wf w -> bounded w ->
  exists w', run_appends calls w = (Ok tt, w') /\ wf w' /\ bounded w'.
Proof.
  induction calls as [|c rest IH]; intros w Hn Hwf Hb.
  - exists w. split; [reflexivity | split; assumption].
  - rewrite run_appends_cons.
    destruct (wf_holds_history w (call_uid c) (call_cid c) Hwf) as [ms Hms].
    destruct (append_message_holds w _ _ (call_role c) (call_content c) ms Hms)
      as (w1 & E & _).
    rewrite E. apply IH; [exact Hn | |].
    + eapply append_message_wf; eauto.
    + eapply append_message_bounded; eauto.
Qed.

(** On a well-formed store within the window every chat reads back
    with at most MAX_CONTEXT messages. *)
Lemma bounded_history w uid cid :
  (1 <= MAX_CONTEXT)%Z -> wf w -> bounded w ->
  exists h, get_chat_history uid cid w = (Ok h, w) /\ (Z.of_nat (length h) <= MAX_CONTEXT)%Z.
Proof.
  intros Hn Hwf Hb. destruct (wf_holds_history w uid cid Hwf) as [ms Hms].
  exists ms. split; [now apply get_chat_history_holds|].
  destruct (db w !! chat_history_key uid cid) as [v|] eqn:E.
  - pose proof (holds_history_lookup _ _ _ _ _ Hms E) as ->.
    apply Hb in E. now rewrite length_map in E.
  - destruct Hms as [Hi _]. unfold chat_items in Hi. rewrite E in Hi.
    destruct ms; [cbn; lia | discriminate].
Qed.

Lemma wf_empty_world : wf empty_world.
Proof.
  unfold wf, empty_world. cbn [db].
  repeat split; intros; rewrite lookup_empty in *; discriminate.
Qed.

Lemma bounded_empty_world : bounded empty_world.
Proof. intros k l H. cbn in H. rewrite lookup_empty in H. discriminate. Qed.

Lemma last_n_app_last_n {A} (n : nat) (l l2 : list A) :
  last_n n (last_n n l ++ l2) = last_n n (l ++ l2).
Proof. unfold last_n. apply skipn_last_app. Qed.

Lemma length_last_n {A} (n : nat) (l : list A) : length (last_n n l) = Nat.min n (length l).
Proof. unfold last_n. rewrite length_skipn. lia. Qed.

Lemma last_n_short {A} (n : nat) (l : list A) : length l <= n -> last_n n l = l.
Proof. intros H. unfold last_n. now replace (length l - n) with 0 by lia. Qed.

(** K successive appends to one chat: they all complete, and the chat
    then holds the last MAX_CONTEXT of what it held followed by the new
    messages. *)
Lemma run_appends_holds uid cid rcs : forall w ms0,
  (1 <= MAX_CONTEXT)%Z ->
  holds_history w uid cid ms0 -> (Z.of_nat (length ms0) <= MAX_CONTEXT)%Z ->
  exists w', run_appends (map (call_on uid cid) rcs) w = (Ok tt, w') /\
             holds_history w' uid cid
               (last_n (Z.to_nat MAX_CONTEXT) (ms0 ++ stamp_from (ticks w) rcs)).
Proof.
  induction rcs as [|rc rest IH]; intros w ms0 Hn Hms Hlen.
  - exists w. split; [reflexivity|]. cbn [stamp_from]. rewrite app_nil_r.
    rewrite last_n_short by lia. exact Hms.
  - cbn [map]. rewrite run_appends_cons. cbn [call_on call_uid call_cid call_role call_content].
    destruct (append_message_holds w uid cid (fst rc) (snd rc) ms0 Hms)
      as (w1 & E & Hh & Ht & _).
    rewrite E. rewrite range_last in Hh by exact Hn.
    fold (stamped (ticks w) rc) in Hh.
    change (skipn (length (ms0 ++ [stamped (ticks w) rc]) - Z.to_nat MAX_CONTEXT)
                  (ms0 ++ [stamped (ticks w) rc]))
      with (last_n (Z.to_nat MAX_CONTEXT) (ms0 ++ [stamped (ticks w) rc])) in Hh.
    destruct (IH w1 _ Hn Hh) as (w' & Hrun & Hfin).
    { rewrite length_last_n. lia. }
    exists w'. split; [exact Hrun|].
    rewrite last_n_app_last_n, <- app_assoc, Ht in Hfin. exact Hfin.
Qed.

(** ** The context window *)

(** X22. The bound on the history for a window of at least 1 (at 0 the
    trim keeps everything, see the run below). With MAX_CONTEXT >= 1, on
    a well-formed store, (a) every append_message call completes, leaves
    the store well formed, and the chat it appended to then reads back
    with at most MAX_CONTEXT messages; (b) from a store in which no list
    exceeds the window (the empty store is one), after any sequence of
    append_message calls, whatever their users, chats, roles and
    contents, every chat reads back with at most MAX_CONTEXT messages.
    Every prefix of a sequence is a sequence, so (b) holds after each
    call. *)
Theorem history_length_bounded (w : world) :
  (1 <= MAX_CONTEXT)%Z -> wf w ->
  (forall uid cid role content,
     exists w' h,
       append_message uid cid role content w = (Ok tt, w') /\ wf w' /\
       get_chat_history uid cid w' = (Ok h, w') /\
       (Z.of_nat (length h) <= MAX_CONTEXT)%Z) /\
  (bounded w ->
   forall calls,
     exists w',
       run_appends calls w = (Ok tt, w') /\
       forall uid cid,
         exists h, get_chat_history uid cid w' = (Ok h, w') /\
                   (Z.of_nat (length h) <= MAX_CONTEXT)%Z).
Proof.
  intros Hn Hwf. split.
  - intros uid cid r c.
    destruct (wf_holds_history w uid cid Hwf) as [ms Hms].
    destruct (append_message_holds w uid cid r c ms Hms) as (w' & E & Hh & _).
    exists w'. eexists. split; [exact E|]. split; [eapply append_message_wf; eauto|].
    split; [apply get_chat_history_holds; exact Hh|].
    now apply length_range_last.
  - intros Hb calls.
    destruct (run_appends_invariant calls w Hn Hwf Hb) as (w' & E & Hwf' & Hb').
    exists w'. split; [exact E|]. intros uid cid. now apply bounded_history.
Qed.

(** X23. The history of a chat filled from nothing, for a window of at
    least 1 (at 0 the trim keeps everything, see the run below). With
    MAX_CONTEXT >= 1, appending K messages in order to a chat that holds nothing
    completes, and get_chat_history then returns the last MAX_CONTEXT of
    the K messages in append order: all K of them when K <= MAX_CONTEXT,
    and exactly MAX_CONTEXT of them, the most recent ones, when
    K > MAX_CONTEXT. The i-th message carries the i-th role and content
    and the clock reading taken by the i-th call. *)
Theorem history_is_fifo_window (w : world) (uid cid : string) (rcs : list (string * string)) :
  (1 <= MAX_CONTEXT)%Z ->
  db w !! chat_history_key uid cid = None ->
  let ms := stamp_from (ticks w) rcs in
  exists w',
    run_appends (map (call_on uid cid) rcs) w = (Ok tt, w') /\
    get_chat_history uid cid w' = (Ok (last_n (Z.to_nat MAX_CONTEXT) ms), w') /\
    (Z.of_nat (length rcs) <= MAX_CONTEXT -> last_n (Z.to_nat MAX_CONTEXT) ms = ms)%Z /\
    (MAX_CONTEXT < Z.of_nat (length rcs) ->
       Z.of_nat (length (last_n (Z.to_nat MAX_CONTEXT) ms)) = MAX_CONTEXT)%Z /\
    map (fun m => (role m, content m)) ms = rcs.
Proof.
  intros Hn Hnone ms.
  assert (Hlen : forall t l, length (stamp_from t l) = length l).
  { intros t l. revert t. induction l as [|x l IH]; intros t; cbn; [reflexivity | now rewrite IH]. }
  destruct (run_appends_holds uid cid rcs w [] Hn (holds_history_absent _ _ _ Hnone))
    as (w' & E & Hh); [cbn; lia|].
  exists w'. split; [exact E|]. split; [apply get_chat_history_holds; exact Hh|].
  split; [|split].
  - intros HK. apply last_n_short. subst ms. rewrite Hlen. lia.
  - intros HK. rewrite length_last_n. subst ms. rewrite Hlen. lia.
  - subst ms. generalize (ticks w). clear. induction rcs as [|[r c] rest IH]; intros t; cbn;
      [reflexivity | now rewrite IH].
Qed.

(** ** The language detector *)

Lemma detect_lang_safe_cases text :
  detect_lang_safe text =
  if startswith "hi" (statistical_code text) then Ok "hi"
  else if 2 <=? hindi_hits text then Ok "hi"
  else if negb (hindi_hits text =? 0) && negb (eng_hits text =? 0) then Ok "hi"
  else Ok "en".
Proof.
  unfold detect_lang_safe.
  destruct (startswith "hi" (statistical_code text)), (2 <=? hindi_hits text); reflexivity.
Qed.

Lemma statistical_code_hi text :
  startswith "hi" (statistical_code text) = true <->
  exists code, detect text = Ok code /\ startswith "hi" code = true.
Proof.
  unfold statistical_code. destruct (detect text) as [code|e].
  - split; [eauto | now intros (c & [= <-] & H)].
  - split; [discriminate | now intros (c & [=] & _)].
Qed.

(** *** The decision in the spec's words

    "Tokenize the lowercased text into alphabetic word tokens
    (sequences of letters and apostrophes)", then "count tokens
    matching" each lexicon. These definitions follow that wording and
    share nothing with the functions of the program above; the facts
    below compare the two. *)

Definition capital_letters : string := "ABCDEFGHIJKLMNOPQRSTUVWXYZ".
Definition small_letters : string := "abcdefghijklmnopqrstuvwxyz".

(** A letter of the alphabet or an apostrophe. *)
Definition letter_or_apostrophe (c : ascii) : bool :=
  bool_decide (c ∈ list_ascii_of_string (capital_letters +:+ small_letters +:+ "'")).

(** The characters that are neither a capital letter nor have a small
    form 32 places on, among those of the two columns 0x40-0x5F and
    0xC0-0xDF: the at sign, the five signs after Z, the multiplication
    sign and the sharp s. *)
Definition caseless : list ascii :=
  [ "@"; "["; "\"; "]"; "^"; "_"; "215"; "223" ]%char.

(** The small form of a character: for a capital (A-Z, and the capitals
    U+00C0..U+00DE of Latin-1) the same character with bit 5 set. *)
Definition lowercased_char (c : ascii) : ascii :=
  match c with
  | Ascii b0 b1 b2 b3 b4 false true b7 =>
      if bool_decide (c ∈ caseless) then c else Ascii b0 b1 b2 b3 b4 true true b7
  | _ => c
  end.

Definition lowercased (text : string) : string :=
  string_of_list_ascii (map lowercased_char (list_ascii_of_string text)).

(** The tokens of a text, read left to right: [run] is the sequence of
    letters and apostrophes being read, which ends at the first other
    character or at the end of the text. *)
Fixpoint tokens_after (run : string) (text : string) : list string :=
  match text with
  | EmptyString => match run with EmptyString => [] | _ => [run] end
  | String c rest =>
      if letter_or_apostrophe c then tokens_after (run +:+ String c EmptyString) rest
      else match run with
           | EmptyString => tokens_after EmptyString rest
           | _ => run :: tokens_after EmptyString rest
           end
  end.

Definition tokens (text : string) : list string := tokens_after EmptyString text.

(** The number of tokens of the lowercased text that are words of the
    lexicon, each occurrence counted. *)
Definition matching_tokens (lexicon : list string) (text : string) : nat :=
  length (filter (fun t => t ∈ lexicon) (tokens (lowercased text))).

(** The statistical code starts with "hi". *)
Definition hindi_code (r : result string) : Prop :=
  exists rest, r = Ok ("hi" +:+ rest).

Lemma letter_or_apostrophe_class c : letter_or_apostrophe c = is_word_char c.
Proof. destruct c as [[] [] [] [] [] [] [] []]; vm_compute; reflexivity. Qed.

Lemma lowercased_char_lower c : lowercased_char c = lower_char c.
Proof. destruct c as [[] [] [] [] [] [] [] []]; vm_compute; reflexivity. Qed.

Lemma lowercased_lower text : lowercased text = lower text.
Proof.
  unfold lowercased. induction text as [|c s IH]; [reflexivity|].
  cbn [list_ascii_of_string map string_of_list_ascii lower].
  now rewrite IH, lowercased_char_lower.
Qed.

Lemma tokens_after_findall text :
  forall run,
    tokens_after run text =
      match run with
      | EmptyString => findall is_word_char text
      | _ => if starts is_word_char text
             then match findall is_word_char text with
                  | w :: ws => (run +:+ w) :: ws
                  | [] => [run]
                  end
             else run :: findall is_word_char text
      end.
Proof.
  induction text as [|c s IH]; intros run.
  - destruct run; reflexivity.
  - cbn [tokens_after findall starts]. rewrite letter_or_apostrophe_class.
    destruct (is_word_char c) eqn:Ec.
    + rewrite IH.
      assert (Hne : exists a r, run +:+ String c EmptyString = String a r).
      { destruct run as [|a r]; [exists c, EmptyString; reflexivity|].
        rewrite append_cons. eauto. }
      destruct Hne as (a & r & Hne). rewrite Hne, <- Hne. clear a r Hne.
      assert (Hass : forall w, (run +:+ String c EmptyString) +:+ w = run +:+ String c w).
      { intros w. now rewrite append_assoc, append_cons, append_nil_l. }
      destruct run as [|a r].
      * rewrite append_nil_l.
        destruct (starts is_word_char s), (findall is_word_char s) as [|w ws];
          try reflexivity.
      * destruct (starts is_word_char s), (findall is_word_char s) as [|w ws];
          rewrite ?Hass, ?append_nil_r; reflexivity.
    + rewrite IH. destruct run; reflexivity.
Qed.

Lemma tokens_words_of text : tokens (lowercased text) = words_of text.
Proof. unfold tokens, words_of. now rewrite tokens_after_findall, lowercased_lower. Qed.

Lemma member_elem_of w lexicon : member w lexicon = bool_decide (w ∈ lexicon).
Proof.
  unfold member. induction lexicon as [|k ks IH]; cbn [existsb].
  - symmetry. apply bool_decide_eq_false. apply not_elem_of_nil.
  - rewrite IH. destruct (String.eqb_spec w k) as [->|Hne].
    + symmetry. apply bool_decide_eq_true. apply elem_of_cons. now left.
    + cbn [orb]. apply bool_decide_ext. rewrite elem_of_cons.
      split; [intros H; now right | intros [H|H]; [contradiction | exact H]].
Qed.

Lemma count_hits_matching lexicon ws :
  count_hits lexicon ws = length (filter (fun t => t ∈ lexicon) ws).
Proof.
  induction ws as [|w ws IH]; [reflexivity|]. cbn [count_hits].
  rewrite filter_cons, member_elem_of, IH.
  destruct (decide (w ∈ lexicon)) as [Hin|Hin].
  - now rewrite (bool_decide_eq_true_2 _ Hin).
  - now rewrite (bool_decide_eq_false_2 _ Hin).
Qed.

Lemma hindi_hits_matching text : hindi_hits text = matching_tokens hindi_keywords text.
Proof. unfold hindi_hits, matching_tokens. now rewrite count_hits_matching, tokens_words_of. Qed.

Lemma eng_hits_matching text : eng_hits text = matching_tokens english_words text.
Proof. unfold eng_hits, matching_tokens. now rewrite count_hits_matching, tokens_words_of. Qed.

Lemma startswith_hi code :
  startswith "hi" code = true <-> exists rest, code = String "h" (String "i" rest).
Proof.
  unfold startswith. destruct code as [|a [|b rest]]; cbn [String.prefix].
  - split; [intros H | intros (r & H)]; discriminate H.
  - destruct (ascii_dec "h" a); (split; [intros H | intros (r & H)]; discriminate H).
  - destruct (ascii_dec "h" a) as [<-|Ha].
    + destruct (ascii_dec "i" b) as [<-|Hb].
      * split; [eauto | intros _; now destruct rest].
      * split; [intros H; discriminate H | intros (r & H); congruence].
    + split; [intros H; discriminate H | intros (r & H); congruence].
Qed.

Lemma hindi_code_statistical text :
  startswith "hi" (statistical_code text) = true <-> hindi_code (detect text).
Proof.
  rewrite statistical_code_hi. unfold hindi_code. split.
  - intros (code & E & H). apply startswith_hi in H as [rest ->]. now exists rest.
  - intros (rest & E). exists ("hi" +:+ rest). split; [exact E|].
    apply startswith_hi. now exists rest.
Qed.

(** C3. detect_lang_safe returns "hi" exactly when the statistical code
    (the answer of detect, when it gives one) starts with "hi", or at
    least two tokens of the lowercased text are words of the Hindi
    lexicon, or at least one is and at least one token is a word of the
    English lexicon; in every other case it returns "en". In particular
    two hits of the Hindi lexicon give "hi", and so does exactly one
    such hit together with a hit of the English lexicon. The tokens and
    the hits are those of the spec's wording, not the program's own
    counters. *)
Theorem detect_lang_safe_decision (text : string) :
  let stat_hi := hindi_code (detect text) in
  let hh := matching_tokens hindi_keywords text in
  let eh := matching_tokens english_words text in
  let mixed := 1 <= hh /\ 1 <= eh in
  (detect_lang_safe text = Ok "hi" <-> stat_hi \/ 2 <= hh \/ mixed) /\
  (detect_lang_safe text = Ok "en" <-> ~ (stat_hi \/ 2 <= hh \/ mixed)) /\
  (2 <= hh -> detect_lang_safe text = Ok "hi") /\
  (hh = 1 -> 1 <= eh -> detect_lang_safe text = Ok "hi").
Proof.
  clear MAX_CONTEXT clock uuid4 generate_content.
  intros stat_hi hh eh mixed. subst stat_hi hh eh mixed.
  rewrite <- hindi_code_statistical, <- hindi_hits_matching, <- eng_hits_matching.
  rewrite detect_lang_safe_cases.
  destruct (startswith "hi" (statistical_code text));
    destruct (Nat.leb_spec 2 (hindi_hits text)) as [H2|H2];
    destruct (Nat.eqb_spec (hindi_hits text) 0) as [Hh|Hh];
    destruct (Nat.eqb_spec (eng_hits text) 0) as [He|He]; cbn [negb andb];
    intuition (try discriminate; try congruence; try lia).
Qed.

(** ** Chats of a user *)

Lemma list_user_chats_inv w uid r w' :
  list_user_chats uid w = (r, w') ->
  w' = w /\
  match db w !! user_chats_key uid with
  | None => r = Ok []
  | Some (RString v) => r = json_loads_chats (or_empty_array (Some v))
  | Some (RList _) => r = Raise Redis.wrongtype
  end.
Proof.
  unfold list_user_chats, bind, Redis.get, lift.
  destruct (db w !! user_chats_key uid) as [[v|l]|]; intros [= <- <-]; now split.
Qed.

(** create_chat_for_user for a user whose chat list reads as [l]. *)
Lemma create_chat_for_user_spec w uid t l :
  list_user_chats uid w = (Ok l, w) ->
  let cid := slice_to 8 (uuid_str (uuid4 (draws w))) in
  let rec := {| chat_id := cid; title := title_or_default t (length l);
                created := clock (ticks w) |} in
  create_chat_for_user uid t w =
    (Ok cid, {| db := <[user_chats_key uid := RString (ChatsJson (l ++ [rec]))]> (db w);
                ticks := S (ticks w); draws := S (draws w) |}).
Proof.
  intros Hl cid rec. apply list_user_chats_inv in Hl as [_ Hl].
  unfold create_chat_for_user, bind, uuid_uuid4, Redis.get, lift, time_time, Redis.set, set_db, ret.
  cbn [db ticks draws].
  destruct (db w !! user_chats_key uid) as [[v|l0]|]; try discriminate.
  - symmetry in Hl. rewrite Hl. reflexivity.
  - injection Hl as Hl. subst l. reflexivity.
Qed.

Lemma list_user_chats_after_set w uid l n d :
  list_user_chats uid
    {| db := <[user_chats_key uid := RString (ChatsJson l)]> (db w); ticks := n; draws := d |}
  = (Ok l, {| db := <[user_chats_key uid := RString (ChatsJson l)]> (db w);
              ticks := n; draws := d |}).
Proof.
  unfold list_user_chats, bind, Redis.get, lift. cbn [db].
  rewrite lookup_insert_eq. reflexivity.
Qed.

(** C9. create_chat_for_user returns an identifier of 8 characters (the
    first 8 hexadecimal digits of the UUID) and stores the user's chat
    list with the record {chat_id, title, created} added at its end, the
    records that were there staying in their order; the title is the
    given one when one is given and is not empty, and "Chat {n+1}" for a
    user with n chats when none (or an empty one) is given.
    list_user_chats returns the stored list in that order, and the empty
    list for a user with no chats. In particular the first chat created
    for a user with no chat list is listed with the returned identifier
    and the title "Chat 1". *)
Theorem create_chat_appends_record (w : world) (uid : string) (t : option string) :
  (forall l, list_user_chats uid w = (Ok l, w) ->
     exists cid ttl w',
       create_chat_for_user uid t w = (Ok cid, w') /\
       String.length cid = 8 /\
       list_user_chats uid w' =
         (Ok (l ++ [ {| chat_id := cid; title := ttl; created := clock (ticks w) |} ]), w') /\
       (forall s, t = Some s -> s <> "" -> ttl = s) /\
       (t = None \/ t = Some "" -> ttl = "Chat " +:+ str_of_nat (length l + 1))) /\
  (db w !! user_chats_key uid = None ->
     list_user_chats uid w = (Ok [], w) /\
     exists cid w',
       create_chat_for_user uid None w = (Ok cid, w') /\
       String.length cid = 8 /\
       list_user_chats uid w' =
         (Ok [ {| chat_id := cid; title := "Chat 1"; created := clock (ticks w) |} ], w')).
Proof.
  assert (Hgen : forall t' l, list_user_chats uid w = (Ok l, w) ->
     exists cid w',
       create_chat_for_user uid t' w = (Ok cid, w') /\
       String.length cid = 8 /\
       list_user_chats uid w' =
         (Ok (l ++ [ {| chat_id := cid; title := title_or_default t' (length l);
                        created := clock (ticks w) |} ]), w')).
  { intros t' l Hl. eexists. eexists.
    split; [apply create_chat_for_user_spec; exact Hl|].
    split; [apply cid_of_uuid|]. apply list_user_chats_after_set. }
  split.
  - intros l Hl. destruct (Hgen t l Hl) as (cid & w' & H1 & H2 & H3).
    exists cid, (title_or_default t (length l)), w'.
    split; [exact H1|]. split; [exact H2|]. split; [exact H3|]. split.
    + intros s -> Hs. destruct s; [contradiction | reflexivity].
    + intros [-> | ->]; reflexivity.
  - intros Hnone.
    assert (Hl : list_user_chats uid w = (Ok [], w)).
    { unfold list_user_chats, bind, Redis.get, lift. now rewrite Hnone. }
    split; [exact Hl|]. exact (Hgen None [] Hl).
Qed.

(** ** The streaming generator *)

Lemma bind_ok {A B} (m : M A) (k : A -> M B) w a w' :
  m w = (Ok a, w') -> bind m k w = k a w'.
Proof. intros H. unfold bind. now rewrite H. Qed.

Lemma bind_raise {A B} (m : M A) (k : A -> M B) w e w' :
  m w = (Raise e, w') -> bind m k w = (Raise e, w').
Proof. intros H. unfold bind. now rewrite H. Qed.

(** The loop yields the pieces in order, then the diagnostic fragment
    if an exception ended it, and gathers exactly the pieces. *)
Lemma stream_loop_spec cs fin : forall collected,
  stream_loop cs fin collected =
  (pieces_before cs ++ match first_error cs fin with
                       | None => []
                       | Some e => [error_fragment e]
                       end,
   collected +:+ cat (pieces_before cs)).
Proof.
  induction cs as [|c cs IH]; intros collected; cbn [stream_loop pieces_before first_error].
  - unfold cat. cbn [fold_right]. rewrite append_nil_r. now destruct fin.
  - destruct (piece_of c) as [piece|e].
    + rewrite IH. unfold cat. cbn [fold_right]. now rewrite append_assoc.
    + unfold cat. cbn [fold_right]. now rewrite append_nil_r.
Qed.

Lemma event_stream_spec uid cid s w :
  event_stream uid cid s w =
  match committed s with
  | "" => (Ok (delivered s), w)
  | final => bind (append_message uid cid "assistant" final) (fun _ => ret (delivered s)) w
  end.
Proof.
  unfold event_stream, committed, delivered. rewrite stream_loop_spec, append_nil_l.
  now destruct (normalize _).
Qed.

Lemma last_range_snoc {A} (l : list A) (x : A) (n : Z) :
  (0 <= n)%Z -> last (Redis.range (l ++ [x]) (- n) (-1)) = Some x.
Proof.
  intros Hn. destruct (Z.eq_dec n 0%Z) as [->|Hne].
  - change (- 0)%Z with 0%Z. rewrite range_all. apply last_snoc.
  - rewrite range_last by lia. rewrite length_app. cbn [length].
    rewrite skipn_app.
    replace (length l + 1 - Z.to_nat n - length l) with 0 by lia.
    cbn [skipn]. apply last_snoc.
Qed.

(** ** The handler of /api/send *)

Lemma set_lang_wf w uid s :
  wf w -> wf (set_db (<[user_lang_key uid := RString (Plain s)]> (db w)) w).
Proof.
  intros (Hc & Hl & Hg). unfold wf, set_db. cbn [db]. repeat split.
  - intros u v Hv. rewrite lookup_insert_ne in Hv; [eauto|].
    intros E. symmetry in E. revert E. apply chats_key_not_lang.
  - intros u k v Hv. rewrite lookup_insert_ne in Hv by apply lang_key_not_history. eauto.
  - intros u v Hv. destruct (decide (user_lang_key uid = user_lang_key u)) as [E|E].
    + rewrite E, lookup_insert_eq in Hv. injection Hv as <-. eauto.
    + rewrite lookup_insert_ne in Hv by exact E. eauto.
Qed.

Lemma set_chats_wf w uid l n d :
  wf w -> wf {| db := <[user_chats_key uid := RString (ChatsJson l)]> (db w);
                ticks := n; draws := d |}.
Proof.
  intros (Hc & Hl & Hg). unfold wf. cbn [db]. repeat split.
  - intros u v Hv. destruct (decide (user_chats_key uid = user_chats_key u)) as [E|E].
    + rewrite E, lookup_insert_eq in Hv. injection Hv as <-. eauto.
    + rewrite lookup_insert_ne in Hv by exact E. eauto.
  - intros u k v Hv. rewrite lookup_insert_ne in Hv by apply chats_key_not_history. eauto.
  - intros u v Hv. rewrite lookup_insert_ne in Hv by apply chats_key_not_lang. eauto.
Qed.

Lemma wf_list_user_chats w uid : wf w -> exists l, list_user_chats uid w = (Ok l, w).
Proof.
  intros (Hc & _). unfold list_user_chats, bind, Redis.get, lift.
  destruct (db w !! user_chats_key uid) as [v|] eqn:E.
  - destruct (Hc _ _ E) as [l ->]. now exists l.
  - now exists [].
Qed.

(** detect_lang_safe always returns, and returns "hi" or "en". *)
Lemma detect_lang_safe_total text :
  detect_lang_safe text = Ok "hi" \/ detect_lang_safe text = Ok "en".
Proof.
  rewrite detect_lang_safe_cases.
  repeat match goal with |- context [if ?b then _ else _] => destruct b end; auto.
Qed.

(** The handler on a request that names its chat and carries a message:
    the user's turn is appended, the language stored, the prompt built
    from the history read back, and the provider asked. *)
Lemma api_send_given w data c t ms :
  let uid := default "demo_user" (req_uid data) in
  let cid := String c t in
  let user_msg := strip (default "" (req_message data)) in
  req_chat_id data = Some cid -> user_msg <> "" ->
  holds_history w uid cid ms ->
  exists w1 lang,
    let h1 := Redis.range (ms ++ [ {| role := "user"; content := user_msg;
                                      ts := clock (ticks w) |} ])
                          (- MAX_CONTEXT) (-1) in
    holds_history w1 uid cid h1 /\
    (wf w -> wf w1) /\
    ticks w1 = S (ticks w) /\ draws w1 = draws w /\
    (forall k, k <> chat_history_key uid cid -> k <> user_lang_key uid ->
               db w1 !! k = db w !! k) /\
    db w1 !! user_lang_key uid = Some (RString (Plain lang)) /\
    detect_lang_safe user_msg = Ok lang /\
    api_send data w =
      respond uid cid
        (generate_content (build_prompt (join nl (map context_line h1)) lang user_msg)) w1.
Proof.
  intros uid cid user_msg Hcid Hmsg Hms.
  destruct (append_message_holds w uid cid "user" user_msg ms Hms)
    as (wa & Ea & Hha & Hta & Hda & Hka).
  set (h1 := Redis.range _ _ _) in *.
  assert (Hlang : exists lang, detect_lang_safe user_msg = Ok lang /\ lang <> "").
  { destruct (detect_lang_safe_total user_msg) as [E|E]; rewrite E; eexists; split;
      try reflexivity; discriminate. }
  destruct Hlang as (lang & El & Hne).
  set (w1 := set_db (<[user_lang_key uid := RString (Plain lang)]> (db wa)) wa).
  assert (Hh1 : holds_history w1 uid cid h1).
  { destruct Hha as [Hi Hs]. unfold holds_history, chat_items, w1, set_db in *. cbn [db].
    rewrite lookup_insert_ne by apply lang_key_not_history. now split. }
  exists w1, lang. cbv zeta. fold h1.
  split; [exact Hh1|]. split.
  { intros Hwf. apply set_lang_wf. eapply append_message_wf; eauto. }
  split; [exact Hta|]. split; [exact Hda|]. split.
  { intros k Hk1 Hk2. unfold w1, set_db. cbn [db].
    rewrite lookup_insert_ne by congruence. now apply Hka. }
  split.
  { unfold w1, set_db. cbn [db]. apply lookup_insert_eq. }
  split; [exact El|].
  unfold api_send. fold uid. fold user_msg. rewrite Hcid.
  destruct user_msg as [|c0 t0] eqn:Eum; [congruence|]. rewrite <- Eum in *.
  unfold ret at 1. rewrite (bind_ok _ _ w cid w) by reflexivity.
  rewrite (bind_ok _ _ w tt wa) by exact Ea.
  rewrite (bind_ok _ _ wa lang wa) by (unfold lift; now rewrite El).
  rewrite (bind_ok _ _ wa tt w1) by reflexivity.
  rewrite (bind_ok _ _ w1 h1 w1) by (now apply get_chat_history_holds).
  rewrite (bind_ok _ _ w1 (Some (Plain lang)) w1).
  2:{ unfold Redis.get, w1, set_db. cbn [db]. now rewrite lookup_insert_eq. }
  destruct lang as [|l0 lt]; [congruence|].
  rewrite (bind_ok _ _ w1 (String l0 lt) w1) by reflexivity.
  unfold respond. now destruct (generate_content _).
Qed.

(** A request without chat_id is served as the same request on the chat
    that create_chat_for_user makes. *)
Lemma api_send_created w data c t w0 :
  let uid := default "demo_user" (req_uid data) in
  no_chat_id data ->
  strip (default "" (req_message data)) <> "" ->
  create_chat_for_user uid None w = (Ok (String c t), w0) ->
  api_send data w = api_send (with_chat data (String c t)) w0.
Proof.
  intros uid Hno Hmsg Hcr. unfold api_send, with_chat.
  cbn [req_uid req_chat_id req_message]. fold uid.
  destruct (strip (default "" (req_message data))) as [|c0 t0]; [congruence|].
  set (k := fun cid : string => bind (append_message uid cid "user" (String c0 t0)) _).
  transitivity (k (String c t) w0).
  - destruct Hno as [-> | ->]; unfold bind at 1; now rewrite Hcr.
  - reflexivity.
Qed.

(** The handler on any request that carries a message, from a
    well-formed store: it resolves the chat (the one named, or a new
    one), appends the user's turn, stores the language, and answers with
    [respond]. *)
Lemma api_send_ok w data :
  let uid := default "demo_user" (req_uid data) in
  let user_msg := strip (default "" (req_message data)) in
  wf w -> user_msg <> "" ->
  exists cid w0 ms w1 lang,
    ((req_chat_id data = Some cid /\ cid <> "" /\ w0 = w) \/
     (no_chat_id data /\ create_chat_for_user uid None w = (Ok cid, w0) /\
      String.length cid = 8)) /\
    holds_history w0 uid cid ms /\
    let h1 := Redis.range (ms ++ [ {| role := "user"; content := user_msg;
                                      ts := clock (ticks w0) |} ])
                          (- MAX_CONTEXT) (-1) in
    holds_history w1 uid cid h1 /\ wf w1 /\
    (forall k, k <> chat_history_key uid cid -> k <> user_lang_key uid ->
               db w1 !! k = db w0 !! k) /\
    db w1 !! user_lang_key uid = Some (RString (Plain lang)) /\
    detect_lang_safe user_msg = Ok lang /\
    api_send data w =
      respond uid cid
        (generate_content (build_prompt (join nl (map context_line h1)) lang user_msg)) w1.
Proof.
  intros uid user_msg Hwf Hmsg.
  assert (Hgiven : forall d c t w0, wf w0 ->
            req_chat_id d = Some (String c t) ->
            req_uid d = req_uid data -> req_message d = req_message data ->
            exists ms w1 lang,
              holds_history w0 uid (String c t) ms /\
              let h1 := Redis.range (ms ++ [ {| role := "user"; content := user_msg;
                                                ts := clock (ticks w0) |} ])
                                    (- MAX_CONTEXT) (-1) in
              holds_history w1 uid (String c t) h1 /\ wf w1 /\
              (forall k, k <> chat_history_key uid (String c t) -> k <> user_lang_key uid ->
                         db w1 !! k = db w0 !! k) /\
              db w1 !! user_lang_key uid = Some (RString (Plain lang)) /\
              detect_lang_safe user_msg = Ok lang /\
              api_send d w0 =
                respond uid (String c t)
                  (generate_content
                     (build_prompt (join nl (map context_line h1)) lang user_msg)) w1).
  { intros d c t w0 Hwf0 Hc Hu Hm.
    destruct (wf_holds_history w0 uid (String c t) Hwf0) as [ms Hms].
    pose proof (api_send_given w0 d c t ms) as G. cbv zeta in G.
    rewrite Hu, Hm in G.
    destruct (G Hc Hmsg Hms) as (w1 & lang & H1 & H2 & _ & _ & H5 & H6 & H7 & H8).
    exists ms, w1, lang. cbv zeta. auto 10. }
  destruct (req_chat_id data) as [[|c t]|] eqn:Ecid.
  2:{ destruct (Hgiven data c t w Hwf Ecid eq_refl eq_refl)
        as (ms & w1 & lang & H1 & H2 & H3 & H4 & H5 & H6 & H7).
      exists (String c t), w, ms, w1, lang. cbv zeta.
      split; [left; repeat split; congruence|]. auto 10. }
  all: destruct (wf_list_user_chats w uid Hwf) as [l Hl];
    pose proof (create_chat_for_user_spec w uid None l Hl) as Hcr; cbv zeta in Hcr;
    pose proof (proj2 (cid_of_uuid (uuid4 (draws w)))) as Hlen;
    set (cid := slice_to 8 (uuid_str (uuid4 (draws w)))) in *;
    match type of Hcr with _ = (_, ?w0') => set (w0 := w0') in * end;
    assert (Hwf0 : wf w0) by (apply set_chats_wf; exact Hwf);
    destruct cid as [|c t] eqn:Ec; [discriminate Hlen|];
    assert (Hno : no_chat_id data) by (unfold no_chat_id; rewrite Ecid; auto);
    destruct (Hgiven (with_chat data (String c t)) c t w0 Hwf0 eq_refl eq_refl eq_refl)
      as (ms & w1 & lang & H1 & H2 & H3 & H4 & H5 & H6 & H7);
    exists (String c t), w0, ms, w1, lang; cbv zeta;
    (split; [right; repeat split; assumption|]);
    rewrite (api_send_created w data c t w0 Hno Hmsg Hcr); auto 10.
Qed.

(** ** What is streamed and what is committed *)

Lemma event_stream_persisted uid cid s w ms :
  holds_history w uid cid ms ->
  exists w',
    event_stream uid cid s w = (Ok (delivered s), w') /\
    persisted uid cid (committed s) w w' /\
    (committed s <> "" ->
     holds_history w' uid cid
       (Redis.range (ms ++ [ {| role := "assistant"; content := committed s;
                                ts := clock (ticks w) |} ])
                    (- MAX_CONTEXT) (-1))).
Proof.
  intros Hms. rewrite event_stream_spec. unfold persisted.
  destruct (committed s) as [|c t] eqn:E.
  - exists w. split; [reflexivity|]. split; [reflexivity | congruence].
  - destruct (append_message_holds w uid cid "assistant" (String c t) ms Hms)
      as (w' & Ea & Hh & _).
    exists w'. rewrite (bind_ok _ _ w tt w' Ea).
    split; [reflexivity|]. split; [exact Ea | intros _; exact Hh].
Qed.

(** C5. When the generator event_stream ends, on a normal end of the
    provider's stream as on an exception in the middle of it, the
    client has received the pieces in order (followed by the diagnostic
    fragment after an exception), and the concatenation of the pieces is
    normalized: every run of whitespace becomes one space and leading
    and trailing whitespace goes, which is joining the whitespace
    separated words by single spaces. A non-empty result is committed
    by exactly one append_message call with role "assistant", after
    which the chat holds it as its newest message within the window; an
    empty result commits nothing and leaves the world as it was.
    In particular the fragments "Hi ", "there\n", " friend" are
    delivered in order and "Hi there friend" is committed. *)
Theorem stream_end_commits_normalized (w : world) (uid cid : string) (ms : list message) :
  holds_history w uid cid ms ->
  (forall s,
     let pieces := pieces_before (chunks s) in
     let final := strip (sub_space_runs (cat pieces)) in
     exists w',
       event_stream uid cid s w = (Ok (delivered s), w') /\
       (first_error (chunks s) (ending s) = None -> delivered s = pieces) /\
       (forall e, first_error (chunks s) (ending s) = Some e ->
                  delivered s = pieces ++ [error_fragment e]) /\
       final = join " " (split_ws (cat pieces)) /\
       (final = "" -> w' = w) /\
       (final <> "" ->
          append_message uid cid "assistant" final w = (Ok tt, w') /\
          holds_history w' uid cid
            (Redis.range (ms ++ [ {| role := "assistant"; content := final;
                                     ts := clock (ticks w) |} ])
                         (- MAX_CONTEXT) (-1)))) /\
  (forall r1 r2 r3,
     exists w',
       event_stream uid cid (three_fragments r1 r2 r3) w
         = (Ok ["Hi "; "there" +:+ nl; " friend"], w') /\
       append_message uid cid "assistant" "Hi there friend" w = (Ok tt, w')).
Proof.
  intros Hms. split.
  - intros s pieces final.
    destruct (event_stream_persisted uid cid s w ms Hms) as (w' & E & Hp & Hh).
    exists w'. split; [exact E|].
    assert (Hf : final = committed s) by reflexivity.
    unfold delivered. fold pieces.
    split; [intros ->; apply app_nil_r|].
    split; [now intros e ->|].
    split; [apply normalize_join_split|].
    unfold persisted in Hp. rewrite <- Hf in Hp, Hh.
    split; [intros H0; rewrite H0 in Hp; exact Hp|].
    intros Hne. split; [|exact (Hh Hne)].
    destruct final; [congruence | exact Hp].
  - intros r1 r2 r3.
    destruct (event_stream_persisted uid cid (three_fragments r1 r2 r3) w ms Hms)
      as (w' & E & Hp & _).
    exists w'. split; [exact E | exact Hp].
Qed.

Lemma list_user_chats_same_key w w' uid :
  db w' !! user_chats_key uid = db w !! user_chats_key uid ->
  fst (list_user_chats uid w') = fst (list_user_chats uid w).
Proof.
  intros E. unfold list_user_chats, bind, Redis.get, lift. rewrite E.
  destruct (db w !! user_chats_key uid) as [[v|l]|]; reflexivity.
Qed.

(** A whole call on a request that carries a message: the handler, then
    either the fallback fragment or the generator run to its end. *)
Lemma send_message_ok w data :
  let uid := default "demo_user" (req_uid data) in
  let user_msg := strip (default "" (req_message data)) in
  wf w -> user_msg <> "" ->
  exists cid w0 ms w1 answer,
    ((req_chat_id data = Some cid /\ cid <> "" /\ w0 = w) \/
     (no_chat_id data /\ create_chat_for_user uid None w = (Ok cid, w0) /\
      String.length cid = 8)) /\
    holds_history w0 uid cid ms /\
    holds_history w1 uid cid
      (Redis.range (ms ++ [ {| role := "user"; content := user_msg;
                               ts := clock (ticks w0) |} ])
                   (- MAX_CONTEXT) (-1)) /\
    wf w1 /\
    (forall k, k <> chat_history_key uid cid -> k <> user_lang_key uid ->
               db w1 !! k = db w0 !! k) /\
    (exists prompt, answer = generate_content prompt) /\
    api_send data w = respond uid cid answer w1 /\
    send_message data w =
      match answer with
      | Raise _ => bind (append_message uid cid "assistant" fallback)
                        (fun _ => ret [fallback]) w1
      | Ok s => event_stream uid cid s w1
      end.
Proof.
  intros uid user_msg Hwf Hmsg.
  destruct (api_send_ok w data Hwf Hmsg)
    as (cid & w0 & ms & w1 & lang & Hres & Hms & Hh1 & Hwf1 & Hk & _ & _ & Hsend).
  fold uid user_msg in Hres, Hms, Hh1, Hk, Hsend.
  eexists cid, w0, ms, w1, _.
  split; [exact Hres|]. split; [exact Hms|]. split; [exact Hh1|].
  split; [exact Hwf1|]. split; [exact Hk|]. split; [eexists; reflexivity|].
  split; [exact Hsend|].
  unfold send_message. unfold bind at 1. rewrite Hsend. unfold respond.
  destruct (generate_content _) as [s|e].
  - reflexivity.
  - destruct (append_message_holds w1 uid cid "assistant" fallback _ Hh1) as (w2 & Ea & _).
    rewrite !(bind_ok _ _ w1 tt w2 Ea). reflexivity.
Qed.




(** C8. A request whose message is missing, empty or made of whitespace
    only is rejected with HTTP 400 before anything else happens: the
    world after the call is the world before it, so no message was
    appended, no chat created and no language written. Nothing is
    streamed either. *)
Theorem blank_message_rejected (w : world) (data : send_request) :
  all_chars is_space (default "" (req_message data)) = true ->
  api_send data w = (Raise (HTTPException 400 "message required"), w) /\
  send_message data w = (Raise (HTTPException 400 "message required"), w).
Proof.
  intros Hblank. apply strip_empty_iff in Hblank.
  assert (E : api_send data w = (Raise (HTTPException 400 "message required"), w)).
  { unfold api_send. rewrite Hblank. reflexivity. }
  split; [exact E|]. unfold send_message. now rewrite (bind_raise _ _ _ _ _ E).
Qed.

(** ** No membership check *)

Lemma append_inj_r (a b s : string) : a +:+ s = b +:+ s -> a = b.
Proof.
  revert b. induction a as [|x a IH]; intros [|y b] H.
  - reflexivity.
  - apply (f_equal String.length) in H. rewrite append_nil_l, length_append in H.
    cbn in H. lia.
  - apply (f_equal String.length) in H. rewrite append_nil_l, length_append in H.
    cbn in H. lia.
  - rewrite !append_cons in H. injection H as -> H. f_equal. now apply IH.
Qed.

Lemma append_colon_inj (u u' r r' : string) :
  no_colon u = true -> no_colon u' = true ->
  u +:+ ":" +:+ r = u' +:+ ":" +:+ r' -> u = u' /\ r = r'.
Proof.
  unfold no_colon. revert u'.
  induction u as [|x u IH]; intros [|y u'] Hu Hu' H; cbn [all_chars] in Hu, Hu'.
  - rewrite !append_nil_l, !append_cons in H. injection H as H. now split.
  - rewrite append_nil_l, !append_cons in H. injection H as Hc _. subst y.
    cbn in Hu'. discriminate.
  - rewrite append_nil_l, !append_cons in H. injection H as Hc _. subst x.
    cbn in Hu. discriminate.
  - rewrite !append_cons in H. injection H as -> H.
    apply andb_prop in Hu as [_ Hu]. apply andb_prop in Hu' as [_ Hu'].
    destruct (IH u' Hu Hu' H) as [-> ->]. now split.
Qed.

(** History keys tell chats apart when user identifiers hold no ':'. *)
Lemma chat_history_key_inj uid cid uid' cid' :
  no_colon uid = true -> no_colon uid' = true ->
  chat_history_key uid cid = chat_history_key uid' cid' -> uid = uid' /\ cid = cid'.
Proof.
  intros Hu Hu' H. unfold chat_history_key in H.
  rewrite !append_cons, !append_nil_l in H. injection H as H.
  apply append_colon_inj in H as [-> H]; [|assumption..].
  split; [reflexivity|]. now apply append_inj_r in H.
Qed.

(** Appends that write to other keys leave a chat without history. *)
Lemma run_appends_untouched uid cid calls : forall w,
  wf w -> db w !! chat_history_key uid cid = None ->
  Forall (fun c => ~ touches uid cid c) calls ->
  exists w', run_appends calls w = (Ok tt, w') /\ wf w' /\
             db w' !! chat_history_key uid cid = None.
Proof.
  induction calls as [|c rest IH]; intros w Hwf Hnone Hall.
  - exists w. now split.
  - apply Forall_cons in Hall as [Hc Hrest]. rewrite run_appends_cons.
    destruct (wf_holds_history w (call_uid c) (call_cid c) Hwf) as [ms Hms].
    destruct (append_message_holds w _ _ (call_role c) (call_content c) ms Hms)
      as (w1 & E & _ & _ & _ & Hk).
    rewrite E. apply IH; [eapply append_message_wf; eauto | | exact Hrest].
    rewrite Hk; [exact Hnone|]. intros Heq. apply Hc. unfold touches. now symmetry.
Qed.

(** C10 (amended on the reading of "under that id"). Neither
    append_message nor get_chat_history looks at the user's chat list.
    (a) For every user and every chat identifier, get_chat_history
    returns the empty list when the store holds nothing under the
    chat's history key chat:{uid}:{cid}:history: in the store nothing
    was written to, and after any sequence of appends none of which
    writes to that key. For user identifiers without ':' two chats
    share a history key only if they are the same chat of the same
    user, so that for them this is: nothing was appended under that
    user and chat. (b) On a well-formed store append_message completes
    for every user and every chat identifier, whether or not
    create_chat_for_user ever produced it, and it leaves the user's chat
    list as it was; the message is then the newest of that chat, the
    window size not being negative. (c) A send-message request that
    names any non-empty chat_id and carries a message is served, and
    list_user_chats for that user answers what it answered before, so
    an identifier that was not listed is still not listed; when the
    handler returns, the chat's history ends with the user's message or
    with the assistant's fallback, and after the whole call it is not
    empty, the window size not being negative. *)
Theorem history_ignores_chat_list :
  (forall w uid cid,
     db w !! chat_history_key uid cid = None ->
     get_chat_history uid cid w = (Ok [], w)) /\
  (forall uid cid calls,
     Forall (fun c => ~ touches uid cid c) calls ->
     exists w', run_appends calls empty_world = (Ok tt, w') /\
                get_chat_history uid cid w' = (Ok [], w')) /\
  (forall uid cid c,
     no_colon uid = true -> no_colon (call_uid c) = true ->
     (touches uid cid c <-> call_uid c = uid /\ call_cid c = cid)) /\
  (forall w uid cid r c,
     wf w ->
     exists w' h,
       append_message uid cid r c w = (Ok tt, w') /\
       get_chat_history uid cid w' = (Ok h, w') /\
       fst (list_user_chats uid w') = fst (list_user_chats uid w) /\
       ((0 <= MAX_CONTEXT)%Z ->
        last h = Some {| role := r; content := c; ts := clock (ticks w) |})) /\
  (forall w data c t,
     let uid := default "demo_user" (req_uid data) in
     let cid := String c t in
     let user_msg := strip (default "" (req_message data)) in
     wf w -> req_chat_id data = Some cid -> user_msg <> "" ->
     (exists resp w1 h,
        api_send data w = (Ok resp, w1) /\
        fst (list_user_chats uid w1) = fst (list_user_chats uid w) /\
        get_chat_history uid cid w1 = (Ok h, w1) /\
        ((0 <= MAX_CONTEXT)%Z ->
         exists m, last h = Some m /\
           (role m = "user" /\ content m = user_msg \/
            role m = "assistant" /\ content m = fallback))) /\
     (exists frags w2 h,
        send_message data w = (Ok frags, w2) /\
        fst (list_user_chats uid w2) = fst (list_user_chats uid w) /\
        get_chat_history uid cid w2 = (Ok h, w2) /\
        ((0 <= MAX_CONTEXT)%Z -> h <> []))).
Proof.
  assert (Ha : forall w uid cid, db w !! chat_history_key uid cid = None ->
                                 get_chat_history uid cid w = (Ok [], w)).
  { intros w uid cid H. apply get_chat_history_holds. now apply holds_history_absent. }
  split; [exact Ha|]. split.
  { intros uid cid calls Hall.
    destruct (run_appends_untouched uid cid calls empty_world wf_empty_world
                (lookup_empty _) Hall) as (w' & E & _ & Hnone).
    exists w'. split; [exact E | now apply Ha]. }
  split.
  { intros uid cid c Hu Hc. unfold touches. split.
    - now apply chat_history_key_inj.
    - now intros [-> ->]. }
  assert (Hlast : forall (l : list message) x, (0 <= MAX_CONTEXT)%Z ->
            Redis.range (l ++ [x]) (- MAX_CONTEXT) (-1) <> []).
  { intros l x Hn E. pose proof (last_range_snoc l x _ Hn) as H. now rewrite E in H. }
  split.
  - intros w uid cid r c Hwf.
    destruct (wf_holds_history w uid cid Hwf) as [ms Hms].
    destruct (append_message_holds w uid cid r c ms Hms) as (w' & E & Hh & _ & _ & Hk).
    exists w'. eexists. split; [exact E|].
    split; [apply get_chat_history_holds; exact Hh|].
    split; [apply list_user_chats_same_key, Hk, chats_key_not_history|].
    intros Hn. now apply last_range_snoc.
  - intros w data c t uid cid user_msg Hwf Hcid Hmsg.
    destruct (send_message_ok w data Hwf Hmsg)
      as (cid' & w0 & ms & w1 & answer & Hres & _ & Hh1 & _ & Hk & _ & Hapi & Hsend).
    fold uid user_msg in Hres, Hh1, Hk, Hapi, Hsend.
    assert (cid' = cid /\ w0 = w) as [-> ->].
    { destruct Hres as [(Hc' & _ & Hw)|([Hc'|Hc'] & _)];
        rewrite Hc' in Hcid; unfold cid in *; [|discriminate..].
      split; congruence. }
    assert (Hchats : forall w', (forall k, k <> chat_history_key uid cid ->
                                 db w' !! k = db w1 !! k) ->
              fst (list_user_chats uid w') = fst (list_user_chats uid w)).
    { intros w' Hk'. apply list_user_chats_same_key.
      rewrite Hk' by apply chats_key_not_history.
      apply Hk; [apply chats_key_not_history | apply chats_key_not_lang]. }
    destruct (append_message_holds w1 uid cid "assistant" fallback _ Hh1)
      as (wf' & Eaf & Hhf & _ & _ & Hkf).
    split.
    + destruct answer as [s|e]; unfold respond in Hapi.
      * eexists _, w1, _. split; [exact Hapi|].
        split; [apply Hchats; reflexivity|].
        split; [apply get_chat_history_holds; exact Hh1|].
        intros Hn. eexists. split; [apply last_range_snoc; exact Hn|].
        left. split; reflexivity.
      * rewrite (bind_ok _ _ w1 tt wf' Eaf) in Hapi.
        eexists _, wf', _. split; [exact Hapi|].
        split; [apply Hchats; exact Hkf|].
        split; [apply get_chat_history_holds; exact Hhf|].
        intros Hn. eexists. split; [apply last_range_snoc; exact Hn|].
        right. split; reflexivity.
    + destruct answer as [s|e].
      * destruct (event_stream_persisted uid cid s w1 _ Hh1) as (w2 & E & Hp & Hh2).
        rewrite E in Hsend. unfold persisted in Hp.
        destruct (committed s) as [|c0 t0] eqn:Ec.
        -- subst w2. eexists _, w1, _. split; [exact Hsend|].
           split; [apply Hchats; reflexivity|].
           split; [apply get_chat_history_holds; exact Hh1|]. intros Hn. now apply Hlast.
        -- destruct (append_message_holds w1 uid cid "assistant" (String c0 t0) _ Hh1)
             as (w2' & Ea2 & _ & _ & _ & Hk2).
           rewrite Ea2 in Hp. injection Hp as <-.
           eexists _, w2', _. split; [exact Hsend|].
           split; [apply Hchats; exact Hk2|].
           split; [apply get_chat_history_holds; apply Hh2; discriminate|].
           intros Hn. now apply Hlast.
      * rewrite (bind_ok _ _ w1 tt wf' Eaf) in Hsend.
        eexists _, wf', _. split; [exact Hsend|].
        split; [apply Hchats; exact Hkf|].
        split; [apply get_chat_history_holds; exact Hhf|]. intros Hn. now apply Hlast.
Qed.

(** ** Well-formedness is an invariant of the program *)

Lemma create_chat_for_user_wf w uid t r w' :
  wf w -> create_chat_for_user uid t w = (r, w') -> wf w'.
Proof.
  intros Hwf E. destruct (wf_list_user_chats w uid Hwf) as [l Hl].
  rewrite (create_chat_for_user_spec w uid t l Hl) in E. injection E as _ <-.
  now apply set_chats_wf.
Qed.

Lemma event_stream_wf w uid cid s r w' :
  wf w -> event_stream uid cid s w = (r, w') -> wf w'.
Proof.
  intros Hwf E. destruct (wf_holds_history w uid cid Hwf) as [ms Hms].
  destruct (event_stream_persisted uid cid s w ms Hms) as (w1 & E1 & Hp & _).
  rewrite E1 in E. injection E as _ <-. unfold persisted in Hp.
  destruct (committed s); [now subst | eapply append_message_wf; eauto].
Qed.

(** A whole send-message call, whatever the request and the provider
    do, leaves a well-formed store well formed. *)
Lemma send_message_wf w data r w' :
  wf w -> send_message data w = (r, w') -> wf w'.
Proof.
  intros Hwf E.
  destruct (strip (default "" (req_message data))) as [|c0 t0] eqn:Em.
  - unfold send_message, bind, api_send in E. rewrite Em in E.
    unfold raise in E. now injection E as _ <-.
  - assert (Hmsg : strip (default "" (req_message data)) <> "") by (rewrite Em; discriminate).
    destruct (send_message_ok w data Hwf Hmsg)
      as (cid & w0 & ms & w1 & answer & _ & _ & Hh1 & Hwf1 & _ & _ & _ & Hsend).
    rewrite Hsend in E. destruct answer as [s|e].
    + eapply event_stream_wf; eauto.
    + destruct (append_message_holds w1 _ cid "assistant" fallback _ Hh1) as (w2 & Ea & _).
      rewrite (bind_ok _ _ w1 tt w2 Ea) in E. injection E as _ <-.
      eapply append_message_wf; eauto.
Qed.

(** * Further properties of the program *)

(** ** Whitespace: strip and normalize *)

(** Does the string end with a character of the class [p]? *)
Definition ends (p : ascii -> bool) (s : string) : bool :=
  match last_char s with
  | Some c => p c
  | None => false
  end.

(** The class of the characters that are not whitespace. *)
Definition non_space (c : ascii) : bool := negb (is_space c).

(** Is every whitespace character of the string a single U+0020 that is
    followed by a character that is not whitespace? *)
Fixpoint single_spaced (s : string) : bool :=
  match s with
  | EmptyString => true
  | String c s' =>
      if is_space c
      then Ascii.eqb c " " && starts non_space s' && single_spaced s'
      else single_spaced s'
  end.

Lemma lstrip_decompose s :
  exists a, s = a +:+ lstrip s /\ all_chars is_space a = true /\
            starts is_space (lstrip s) = false.
Proof.
  induction s as [|c s (a & E & Ha & Hs)].
  - exists "". now repeat split.
  - cbn [lstrip]. destruct (is_space c) eqn:Hc.
    + exists (String c a). rewrite append_cons, <- E. cbn [all_chars]. rewrite Hc, Ha.
      now repeat split.
    + exists "". cbn [starts]. rewrite Hc. now repeat split.
Qed.

Lemma rstrip_decompose s :
  exists b, s = rstrip s +:+ b /\ all_chars is_space b = true /\
            ends is_space (rstrip s) = false.
Proof.
  induction s as [|c s (b & E & Hb & He)].
  - exists "". now repeat split.
  - cbn [rstrip]. destruct (rstrip s) as [|d r] eqn:Er.
    + rewrite append_nil_l in E. subst b. destruct (is_space c) eqn:Hc.
      * exists (String c s). cbn [all_chars]. rewrite Hc, Hb. now repeat split.
      * exists s. unfold ends. cbn [last_char]. rewrite Hc. now repeat split.
    + exists b. rewrite append_cons, <- E. repeat split; [exact Hb|].
      unfold ends in *. cbn [last_char] in *. exact He.
Qed.

Lemma last_char_lstrip r c :
  last_char r = Some c -> is_space c = false -> last_char (lstrip r) = Some c.
Proof.
  induction r as [|x r IH]; [discriminate|]. intros Hl Hc.
  cbn [lstrip]. destruct (is_space x) eqn:Hx; [|exact Hl].
  destruct r as [|y r]; [cbn in Hl; congruence|]. apply IH; [exact Hl | exact Hc].
Qed.

Lemma last_char_none s : last_char s = None -> s = "".
Proof.
  induction s as [|x s IH]; [reflexivity|]. cbn [last_char].
  destruct s; [discriminate|]. intros H. specialize (IH H). discriminate.
Qed.

Lemma ends_lstrip r : ends is_space r = false -> ends is_space (lstrip r) = false.
Proof.
  unfold ends. destruct (last_char r) as [c|] eqn:E.
  - intros Hc. now rewrite (last_char_lstrip r c E Hc).
  - apply last_char_none in E. now subst r.
Qed.

(** X1. str.strip() removes whitespace at the two ends and nothing
    else: the string is a run of whitespace, then its strip, then a run
    of whitespace, and the strip neither starts nor ends with a
    whitespace character. The user's message is stored and sent to the
    provider in this form. *)
Theorem strip_removes_only_the_ends (s : string) :
  exists a b,
    s = a +:+ strip s +:+ b /\
    all_chars is_space a = true /\ all_chars is_space b = true /\
    starts is_space (strip s) = false /\ ends is_space (strip s) = false.
Proof.
  destruct (rstrip_decompose s) as (b & Eb & Hb & He).
  destruct (lstrip_decompose (rstrip s)) as (a & Ea & Ha & Hs).
  exists a, b. unfold strip. rewrite <- append_assoc, <- Ea, <- Eb.
  repeat split; try assumption. now apply ends_lstrip.
Qed.

(** A word: not empty, and without whitespace. *)
Definition is_word (w : string) : Prop := w <> "" /\ all_chars non_space w = true.

Lemma split_ws_words s : Forall is_word (split_ws s).
Proof.
  unfold split_ws. fold non_space.
  induction s as [|c s IH]; cbn [findall]; [constructor|].
  destruct (non_space c) eqn:Hc; [|exact IH].
  destruct (starts non_space s); destruct (findall non_space s) as [|w ws] eqn:E.
  - constructor; [|constructor]. split; [discriminate | cbn; now rewrite Hc].
  - apply Forall_cons in IH as [[Hne Hw] Hws]. constructor; [|exact Hws].
    split; [discriminate | cbn; now rewrite Hc, Hw].
  - constructor; [|constructor]. split; [discriminate | cbn; now rewrite Hc].
  - constructor; [|exact IH]. split; [discriminate | cbn; now rewrite Hc].
Qed.

(** A word followed by nothing or by whitespace is found as one token. *)
Lemma findall_word_app w rest :
  is_word w -> starts non_space rest = false ->
  findall non_space (w +:+ rest) = w :: findall non_space rest.
Proof.
  intros [Hne Hw] Hrest. induction w as [|c w IH]; [congruence|].
  cbn [all_chars] in Hw. apply andb_prop in Hw as [Hc Hw].
  rewrite append_cons. cbn [findall]. rewrite Hc.
  destruct w as [|d w].
  - rewrite append_nil_l, Hrest. now destruct (findall non_space rest).
  - rewrite IH by (try discriminate; exact Hw).
    rewrite append_cons. cbn [starts].
    cbn [all_chars] in Hw. apply andb_prop in Hw as [Hd _]. now rewrite Hd.
Qed.

Lemma split_ws_join ws : Forall is_word ws -> split_ws (join " " ws) = ws.
Proof.
  unfold split_ws, join. fold non_space.
  induction ws as [|w ws IH]; intros Hall; [reflexivity|].
  apply Forall_cons in Hall as [Hw Hws]. cbn [String.concat].
  destruct ws as [|w2 ws].
  - rewrite <- (append_nil_r w) at 1. now rewrite findall_word_app.
  - rewrite findall_word_app by (try exact Hw; reflexivity).
    f_equal. rewrite append_cons, append_nil_l.
    change (findall non_space (String " " (String.concat " " (w2 :: ws))))
      with (findall non_space (String.concat " " (w2 :: ws))).
    now apply IH.
Qed.

(** X2. Normalizing keeps the words: the whitespace-separated words of
    re.sub(r"\s+", " ", s).strip() are those of s, in order, and
    normalizing a second time changes nothing. *)
Theorem normalize_keeps_words (s : string) :
  split_ws (normalize s) = split_ws s /\ normalize (normalize s) = normalize s.
Proof.
  assert (E : split_ws (normalize s) = split_ws s).
  { rewrite normalize_join_split. apply split_ws_join, split_ws_words. }
  split; [exact E|].
  rewrite (normalize_join_split (normalize s)), E. symmetry. apply normalize_join_split.
Qed.

Lemma single_spaced_word_app w rest :
  all_chars non_space w = true -> single_spaced (w +:+ rest) = single_spaced rest.
Proof.
  induction w as [|c w IH]; intros Hw; [reflexivity|].
  cbn [all_chars] in Hw. apply andb_prop in Hw as [Hc Hw].
  rewrite append_cons. cbn [single_spaced].
  unfold non_space in Hc. destruct (is_space c); [discriminate|]. now apply IH.
Qed.

Lemma starts_word w rest : is_word w -> starts non_space (w +:+ rest) = true.
Proof.
  intros [Hne Hw]. destruct w as [|c w]; [congruence|].
  rewrite append_cons. cbn in *. now apply andb_prop in Hw as [Hc _].
Qed.

Lemma ends_word w : all_chars non_space w = true -> ends is_space w = false.
Proof.
  unfold ends. induction w as [|x w IH]; [reflexivity|]. intros Hw.
  cbn [all_chars] in Hw. apply andb_prop in Hw as [Hx Hw].
  cbn [last_char]. destruct w as [|y w].
  - unfold non_space in Hx. now destruct (is_space x).
  - now apply IH.
Qed.

Lemma single_spaced_join ws :
  Forall is_word ws ->
  single_spaced (join " " ws) = true /\
  (ws <> [] -> starts non_space (join " " ws) = true) /\
  ends is_space (join " " ws) = false.
Proof.
  unfold join. induction ws as [|w ws IH]; intros Hall.
  - now repeat split.
  - apply Forall_cons in Hall as [Hw Hws]. destruct (IH Hws) as (Hs & Hst & He).
    cbn [String.concat]. destruct ws as [|w2 ws].
    + rewrite <- (append_nil_r w). split; [|split].
      * now rewrite single_spaced_word_app by apply Hw.
      * intros _. now apply starts_word.
      * rewrite append_nil_r. apply ends_word, Hw.
    + split; [|split].
      * rewrite single_spaced_word_app by apply Hw.
        rewrite append_cons, append_nil_l. cbn [single_spaced].
        change (is_space " ") with true. cbv iota.
        rewrite Hs, (Hst ltac:(discriminate)). reflexivity.
      * intros _. now apply starts_word.
      * unfold ends in *. rewrite last_char_append; [|discriminate].
        rewrite append_cons, append_nil_l.
        change (last_char (String " " (String.concat " " (w2 :: ws))))
          with (match String.concat " " (w2 :: ws) with
                | "" => Some " "%char
                | _ => last_char (String.concat " " (w2 :: ws))
                end).
        specialize (Hst ltac:(discriminate)).
        destruct (String.concat " " (w2 :: ws)); [discriminate Hst | exact He].
Qed.

(** X3. The text that event_stream commits is single-spaced: after
    re.sub(r"\s+", " ", s).strip() every whitespace character left is
    one U+0020 standing between two characters that are not whitespace;
    there is no newline, tab or other blank, no run of two spaces, and
    no whitespace at either end. *)
Theorem normalize_single_spaced (s : string) :
  single_spaced (normalize s) = true /\
  starts is_space (normalize s) = false /\
  ends is_space (normalize s) = false.
Proof.
  rewrite normalize_join_split.
  destruct (single_spaced_join (split_ws s) (split_ws_words s)) as (Hs & Hst & He).
  split; [exact Hs|]. split; [|exact He].
  destruct (split_ws s) as [|w ws] eqn:E; [reflexivity|].
  specialize (Hst ltac:(discriminate)).
  destruct (join " " (w :: ws)) as [|c r]; [reflexivity|].
  cbn in *. unfold non_space in Hst. now destruct (is_space c).
Qed.

(** ** The detector on short texts *)

Lemma lexicons_disjoint w :
  member w hindi_keywords = true -> member w english_words = false.
Proof.
  unfold member. intros H. apply existsb_exists in H as (k & Hin & Heq).
  apply String.eqb_eq in Heq. subst k.
  unfold hindi_keywords in Hin. cbn [In] in Hin.
  repeat (destruct Hin as [<- | Hin]; [reflexivity|]). contradiction.
Qed.

(** A token counts for one lexicon at most. *)
Lemma count_hits_sum ws :
  count_hits hindi_keywords ws + count_hits english_words ws <= length ws.
Proof.
  induction ws as [|w ws IH]; [reflexivity|]. cbn [count_hits length].
  destruct (member w hindi_keywords) eqn:Hh.
  - rewrite (lexicons_disjoint w Hh). lia.
  - destruct (member w english_words); lia.
Qed.

(** X4. On a text with at most one token the keywords decide nothing:
    detect_lang_safe answers "hi" exactly when the statistical code
    starts with "hi", and "en" otherwise (also when detect raises),
    because one token hits at most one of the two lexicons, which have
    no word in common. *)
Theorem short_text_left_to_statistics (text : string) :
  length (tokens (lowercased text)) <= 1 ->
  matching_tokens hindi_keywords text + matching_tokens english_words text <= 1 /\
  (detect_lang_safe text = Ok "hi" <-> hindi_code (detect text)) /\
  (detect_lang_safe text = Ok "en" <-> ~ hindi_code (detect text)).
Proof.
  clear MAX_CONTEXT clock uuid4 generate_content.
  rewrite tokens_words_of, <- hindi_hits_matching, <- eng_hits_matching. intros Hlen.
  pose proof (count_hits_sum (words_of text)) as Hsum.
  fold (hindi_hits text) (eng_hits text) in Hsum.
  split; [lia|]. rewrite <- hindi_code_statistical, detect_lang_safe_cases.
  destruct (startswith "hi" (statistical_code text)).
  - split; split; intros; try reflexivity; try discriminate; congruence.
  - destruct (Nat.leb_spec 2 (hindi_hits text)); [lia|].
    destruct (Nat.eqb_spec (hindi_hits text) 0), (Nat.eqb_spec (eng_hits text) 0);
      cbn [negb andb]; try lia;
      (split; split; intros; try reflexivity; try discriminate; congruence).
Qed.

(** ** Keys *)

Lemma append_inj_l (a x y : string) : a +:+ x = a +:+ y -> x = y.
Proof.
  induction a as [|c a IH]; [now rewrite !append_nil_l|].
  rewrite !append_cons. intros [= H]. now apply IH.
Qed.

(** X5. The key helpers tell their arguments apart where the program
    relies on it: user_chats_key and user_lang_key are injective in the
    user, chat_history_key is injective in the chat for a given user,
    and no key of one family is a key of another, whatever the
    identifiers. *)
Theorem keys_tell_apart :
  (forall uid uid', user_chats_key uid = user_chats_key uid' -> uid = uid') /\
  (forall uid uid', user_lang_key uid = user_lang_key uid' -> uid = uid') /\
  (forall uid cid cid', chat_history_key uid cid = chat_history_key uid cid' -> cid = cid') /\
  (forall uid uid' cid, user_chats_key uid <> chat_history_key uid' cid) /\
  (forall uid uid' cid, user_lang_key uid <> chat_history_key uid' cid) /\
  (forall uid uid', user_chats_key uid <> user_lang_key uid').
Proof.
  split; [|split; [|split; [|split; [|split]]]].
  - intros uid uid' H. unfold user_chats_key in H.
    apply append_inj_l in H. now apply append_inj_r in H.
  - intros uid uid' H. unfold user_lang_key in H.
    apply append_inj_l in H. now apply append_inj_r in H.
  - intros uid cid cid' H. unfold chat_history_key in H.
    do 3 apply append_inj_l in H. now apply append_inj_r in H.
  - apply chats_key_not_history.
  - apply lang_key_not_history.
  - apply chats_key_not_lang.
Qed.

(** ** What each operation leaves alone *)

Lemma get_chat_history_same_key w w' uid cid :
  db w' !! chat_history_key uid cid = db w !! chat_history_key uid cid ->
  fst (get_chat_history uid cid w') = fst (get_chat_history uid cid w).
Proof.
  intros E. unfold get_chat_history, bind, Redis.lrange, lift. rewrite E.
  destruct (db w !! chat_history_key uid cid) as [[v|l]|]; reflexivity.
Qed.

Lemma get_lang_same_key w w' uid :
  db w' !! user_lang_key uid = db w !! user_lang_key uid ->
  fst (Redis.get (user_lang_key uid) w') = fst (Redis.get (user_lang_key uid) w).
Proof.
  intros E. unfold Redis.get. rewrite E.
  destruct (db w !! user_lang_key uid) as [[v|l]|]; reflexivity.
Qed.

Lemma get_chat_history_world w uid cid : snd (get_chat_history uid cid w) = w.
Proof.
  unfold get_chat_history, bind, Redis.lrange, lift.
  destruct (db w !! chat_history_key uid cid) as [[v|l]|]; reflexivity.
Qed.

Lemma list_user_chats_world w uid : snd (list_user_chats uid w) = w.
Proof.
  unfold list_user_chats, bind, Redis.get, lift.
  destruct (db w !! user_chats_key uid) as [[v|l]|]; reflexivity.
Qed.

(** create_chat_for_user, whatever it answers, writes to the user's
    chat-list key only. *)
Lemma create_chat_for_user_frame w uid t k :
  k <> user_chats_key uid ->
  db (snd (create_chat_for_user uid t w)) !! k = db w !! k.
Proof.
  intros Hk. unfold create_chat_for_user, bind, uuid_uuid4, Redis.get, lift, time_time,
    Redis.set, set_db, ret. cbn [db ticks draws].
  destruct (db w !! user_chats_key uid) as [[v|l]|]; cbn [fst snd db]; try reflexivity.
  - destruct (json_loads_chats (or_empty_array (Some v))); cbn [snd db]; [|reflexivity].
    now rewrite lookup_insert_ne by congruence.
  - cbn [or_empty_array json_loads_chats snd db].
    now rewrite lookup_insert_ne by congruence.
Qed.

(** append_message, whatever it answers, writes to the chat's history
    key only and reads the clock once. *)
Lemma append_message_frame w uid cid r c :
  let w' := snd (append_message uid cid r c w) in
  ticks w' = S (ticks w) /\ draws w' = draws w /\
  forall k, k <> chat_history_key uid cid -> db w' !! k = db w !! k.
Proof.
  unfold append_message, bind, time_time, Redis.rpush, Redis.ltrim, set_db.
  cbn [db ticks draws].
  destruct (db w !! chat_history_key uid cid) as [[v|l]|]; cbn [db ticks draws fst snd].
  - now repeat split.
  - rewrite lookup_insert_eq.
    destruct (Redis.range (l ++ _) _ _); cbn [db ticks draws snd];
      (split; [reflexivity|]; split; [reflexivity|]; intros k Hk).
    + rewrite lookup_delete_ne by congruence. now rewrite lookup_insert_ne by congruence.
    + now rewrite !lookup_insert_ne by congruence.
  - rewrite lookup_insert_eq.
    destruct (Redis.range [_] _ _); cbn [db ticks draws snd];
      (split; [reflexivity|]; split; [reflexivity|]; intros k Hk).
    + rewrite lookup_delete_ne by congruence. now rewrite lookup_insert_ne by congruence.
    + now rewrite !lookup_insert_ne by congruence.
Qed.

(** X6. create_chat_for_user changes nothing but the chat list of its
    user: whatever it answers, every other user's chat list, every
    chat's history and every user's language read back as before. *)
Theorem create_chat_touches_one_list (w : world) (uid : string) (t : option string) :
  let w' := snd (create_chat_for_user uid t w) in
  (forall uid', uid' <> uid ->
     fst (list_user_chats uid' w') = fst (list_user_chats uid' w)) /\
  (forall uid' cid,
     fst (get_chat_history uid' cid w') = fst (get_chat_history uid' cid w)) /\
  (forall uid',
     fst (Redis.get (user_lang_key uid') w') = fst (Redis.get (user_lang_key uid') w)).
Proof.
  cbv zeta. split; [|split].
  - intros uid' Hne. apply list_user_chats_same_key, create_chat_for_user_frame.
    intros E. apply Hne. unfold user_chats_key in E.
    apply append_inj_l in E. now apply append_inj_r in E.
  - intros uid' cid. apply get_chat_history_same_key, create_chat_for_user_frame.
    intros E. symmetry in E. revert E. apply chats_key_not_history.
  - intros uid'. apply get_lang_same_key, create_chat_for_user_frame.
    intros E. symmetry in E. revert E. apply chats_key_not_lang.
Qed.

(** X7. append_message changes nothing but the history of its chat and
    reads the clock exactly once: whatever it answers, every chat with
    another history key (every other chat of the same user among them),
    every user's chat list and every user's language read back as
    before, and the uuid generator is not used. *)
Theorem append_message_touches_one_chat (w : world) (uid cid r c : string) :
  let w' := snd (append_message uid cid r c w) in
  (forall uid' cid',
     chat_history_key uid' cid' <> chat_history_key uid cid ->
     fst (get_chat_history uid' cid' w') = fst (get_chat_history uid' cid' w)) /\
  (forall cid', cid' <> cid ->
     fst (get_chat_history uid cid' w') = fst (get_chat_history uid cid' w)) /\
  (forall uid', fst (list_user_chats uid' w') = fst (list_user_chats uid' w)) /\
  (forall uid',
     fst (Redis.get (user_lang_key uid') w') = fst (Redis.get (user_lang_key uid') w)) /\
  ticks w' = S (ticks w) /\ draws w' = draws w.
Proof.
  destruct (append_message_frame w uid cid r c) as (Ht & Hd & Hk). cbv zeta in *.
  split; [|split; [|split; [|split; [|split]]]]; try assumption.
  - intros uid' cid' Hne. now apply get_chat_history_same_key, Hk.
  - intros cid' Hne. apply get_chat_history_same_key, Hk.
    intros E. apply Hne. unfold chat_history_key in E.
    do 3 apply append_inj_l in E. now apply append_inj_r in E.
  - intros uid'. apply list_user_chats_same_key, Hk, chats_key_not_history.
  - intros uid'. apply get_lang_same_key, Hk, lang_key_not_history.
Qed.

(** ** The page routes *)

(** X8. GET /chat/{cid} and GET /api/chats never write: whatever they
    answer, the world after is the world before. On a well-formed store
    both succeed, for every chat identifier, listed for the user or not:
    open_chat hands the template the user's chat list, the identifier it
    was given and what get_chat_history returns for it. *)
Theorem read_routes_write_nothing (w : world) (q_uid : option string) (cid : string) :
  let uid := default "demo_user" q_uid in
  snd (open_chat q_uid cid w) = w /\
  snd (api_chats q_uid w) = w /\
  (wf w ->
   exists l h,
     list_user_chats uid w = (Ok l, w) /\
     get_chat_history uid cid w = (Ok h, w) /\
     api_chats q_uid w = (Ok l, w) /\
     open_chat q_uid cid w =
       (Ok {| ctx_chats := l; ctx_cid := cid; ctx_uid := uid; ctx_history := h |}, w)).
Proof.
  intros uid. split; [|split].
  - unfold open_chat, bind. fold uid.
    pose proof (list_user_chats_world w uid) as H1.
    destruct (list_user_chats uid w) as [[l|e] w1]; cbn [snd] in H1; subst w1; [|reflexivity].
    pose proof (get_chat_history_world w uid cid) as H2.
    destruct (get_chat_history uid cid w) as [[h|e] w2]; cbn [snd] in H2; subst w2; reflexivity.
  - apply list_user_chats_world.
  - intros Hwf. destruct (wf_list_user_chats w uid Hwf) as [l Hl].
    destruct (wf_holds_history w uid cid Hwf) as [h Hh].
    apply get_chat_history_holds in Hh.
    exists l, h. split; [exact Hl|]. split; [exact Hh|]. split; [exact Hl|].
    unfold open_chat. fold uid.
    rewrite (bind_ok _ _ w l w Hl), (bind_ok _ _ w h w Hh). reflexivity.
Qed.

(** X9. GET / makes sure its user has a chat. On a well-formed store it
    succeeds and the page lists at least one chat, the user's stored
    list. A user who has chats gets them back and nothing is written; a
    user who has none gets exactly one new chat, titled "Chat 1". Asking
    for the page a second time writes nothing and shows the same list. *)
Theorem index_ensures_a_chat (w : world) (q_uid : option string) :
  let uid := default "demo_user" q_uid in
  wf w ->
  exists ctx w',
    index q_uid w = (Ok ctx, w') /\ wf w' /\
    index_uid ctx = uid /\ index_chats ctx <> [] /\
    list_user_chats uid w' = (Ok (index_chats ctx), w') /\
    (forall l, list_user_chats uid w = (Ok l, w) -> l <> [] ->
               w' = w /\ index_chats ctx = l) /\
    (list_user_chats uid w = (Ok [], w) ->
       index_chats ctx =
         [ {| chat_id := slice_to 8 (uuid_str (uuid4 (draws w)));
              title := "Chat 1"; created := clock (ticks w) |} ]) /\
    index q_uid w' = (Ok ctx, w').
Proof.
  intros uid Hwf. destruct (wf_list_user_chats w uid Hwf) as [l Hl].
  assert (Hsame : forall w0 x l0, list_user_chats uid w0 = (Ok (x :: l0), w0) ->
            index q_uid w0 = (Ok {| index_chats := x :: l0; index_uid := uid |}, w0)).
  { intros w0 x l0 H. unfold index. fold uid. rewrite (bind_ok _ _ w0 _ w0 H). reflexivity. }
  destruct l as [|x l].
  - pose proof (create_chat_for_user_spec w uid None [] Hl) as Hcr. cbv zeta in Hcr.
    cbn [app length title_or_default] in Hcr.
    change ("Chat " +:+ str_of_nat (0 + 1)) with "Chat 1" in Hcr.
    set (rec := {| chat_id := slice_to 8 (uuid_str (uuid4 (draws w)));
                   title := "Chat 1"; created := clock (ticks w) |}) in *.
    match type of Hcr with _ = (_, ?w0) => set (w' := w0) in * end.
    assert (Hl' : list_user_chats uid w' = (Ok [rec], w'))
      by apply list_user_chats_after_set.
    exists {| index_chats := [rec]; index_uid := uid |}, w'.
    split.
    { unfold index. fold uid. rewrite (bind_ok _ _ w [] w Hl).
      rewrite (bind_ok _ _ w [rec] w').
      2:{ rewrite (bind_ok _ _ w _ w' Hcr). exact Hl'. }
      reflexivity. }
    split; [now apply set_chats_wf|]. split; [reflexivity|]. split; [discriminate|].
    split; [exact Hl'|]. split.
    { intros l0 Hl0 Hne. rewrite Hl in Hl0. injection Hl0 as Hl0. subst l0.
      now destruct Hne. }
    split; [reflexivity | now apply Hsame].
  - exists {| index_chats := x :: l; index_uid := uid |}, w.
    split; [now apply Hsame|]. split; [exact Hwf|]. split; [reflexivity|].
    split; [discriminate|]. split; [exact Hl|]. split.
    { intros l0 Hl0 _. rewrite Hl in Hl0. injection Hl0 as Hl0. now split. }
    split; [intros H; rewrite Hl in H; discriminate | now apply Hsame].
Qed.

(** ** Creating chats *)

(** The records that successive creations add for a user with [n]
    chats, the first one taking reading [t] of the clock and draw [d]
    of the uuid generator. *)
Fixpoint created_records (n t d : nat) (titles : list (option string)) : list chat_rec :=
  match titles with
  | [] => []
  | x :: rest =>
      {| chat_id := slice_to 8 (uuid_str (uuid4 d));
         title := title_or_default x n; created := clock t |}
      :: created_records (S n) (S t) (S d) rest
  end.

Lemma run_creates_spec uid titles : forall w l,
  list_user_chats uid w = (Ok l, w) ->
  let recs := created_records (length l) (ticks w) (draws w) titles in
  exists w',
    run_creates uid titles w = (Ok (map chat_id recs), w') /\
    list_user_chats uid w' = (Ok (l ++ recs), w') /\
    ticks w' = ticks w + length titles /\ draws w' = draws w + length titles.
Proof.
  induction titles as [|t rest IH]; intros w l Hl; cbv zeta.
  - exists w. cbn. rewrite app_nil_r. repeat split; try lia. exact Hl.
  - pose proof (create_chat_for_user_spec w uid t l Hl) as Hcr. cbv zeta in Hcr.
    set (rec := {| chat_id := slice_to 8 (uuid_str (uuid4 (draws w)));
                   title := title_or_default t (length l);
                   created := clock (ticks w) |}) in *.
    match type of Hcr with _ = (_, ?w0) => set (w1 := w0) in * end.
    assert (Hl1 : list_user_chats uid w1 = (Ok (l ++ [rec]), w1))
      by apply list_user_chats_after_set.
    destruct (IH w1 (l ++ [rec]) Hl1) as (w' & Hrun & Hlist & Ht & Hd).
    cbv zeta in Hrun, Hlist. rewrite length_app in Hrun, Hlist.
    cbn [length ticks draws w1] in Hrun, Hlist, Ht, Hd.
    replace (length l + 1) with (S (length l)) in Hrun, Hlist by lia.
    exists w'. cbn [created_records map run_creates]. fold rec.
    split.
    { rewrite (bind_ok _ _ w _ w1 Hcr), (bind_ok _ _ w1 _ w' Hrun). reflexivity. }
    split; [rewrite Hlist, <- app_assoc; reflexivity|].
    cbn [length]. split; lia.
Qed.

Lemma length_created_records titles : forall n t d,
  length (created_records n t d titles) = length titles.
Proof.
  induction titles as [|x rest IH]; intros n t d; cbn; [reflexivity | now rewrite IH].
Qed.

Lemma default_titles k : forall n t d,
  map title (created_records n t d (repeat None k))
  = map (fun i => "Chat " +:+ str_of_nat (i + 1)) (seq n k).
Proof.
  induction k as [|k IH]; intros n t d; [reflexivity|].
  cbn [repeat created_records map seq title title_or_default]. now rewrite IH.
Qed.

Lemma created_records_lookup titles : forall n t d i x,
  titles !! i = Some x ->
  created_records n t d titles !! i
  = Some {| chat_id := slice_to 8 (uuid_str (uuid4 (d + i)));
            title := title_or_default x (n + i); created := clock (t + i) |}.
Proof.
  induction titles as [|y rest IH]; intros n t d i x Hi; [discriminate Hi|].
  destruct i as [|i]; cbn [created_records].
  - injection Hi as ->. cbn. now rewrite !Nat.add_0_r.
  - pose proof (IH (S n) (S t) (S d) i x Hi) as H.
    replace (S d + i) with (d + S i) in H by lia.
    replace (S n + i) with (n + S i) in H by lia.
    replace (S t + i) with (t + S i) in H by lia.
    exact H.
Qed.

(** X10. Chats are listed in the order of their creation and default
    titles are numbered by position: on a user whose list reads as l,
    any sequence of creations succeeds, returns the identifiers of the
    records it adds, and list_user_chats then returns l followed by
    these records in creation order, one per creation. The i-th new
    record (from 0) has the first 8 characters of the i-th next UUID as
    identifier and the i-th next reading of the clock as creation time;
    its title is the given one when one is given and is not empty, and
    "Chat {len(l)+i+1}" when none or an empty one is given. For a new
    user k creations without title give "Chat 1", ..., "Chat k". *)
Theorem creations_listed_in_order (w : world) (uid : string) (l : list chat_rec)
    (titles : list (option string)) :
  list_user_chats uid w = (Ok l, w) ->
  let recs := created_records (length l) (ticks w) (draws w) titles in
  (exists w',
     run_creates uid titles w = (Ok (map chat_id recs), w') /\
     list_user_chats uid w' = (Ok (l ++ recs), w')) /\
  length recs = length titles /\
  (forall i t, titles !! i = Some t ->
     exists r, recs !! i = Some r /\
       chat_id r = slice_to 8 (uuid_str (uuid4 (draws w + i))) /\
       created r = clock (ticks w + i) /\
       (forall s, t = Some s -> s <> "" -> title r = s) /\
       (t = None \/ t = Some "" ->
        title r = "Chat " +:+ str_of_nat (length l + i + 1))) /\
  (forall k, titles = repeat None k ->
     map title recs = map (fun i => "Chat " +:+ str_of_nat (i + 1)) (seq (length l) k)).
Proof.
  intros Hl recs.
  destruct (run_creates_spec uid titles w l Hl) as (w' & Hrun & Hlist & _).
  split; [exists w'; now split|]. split; [apply length_created_records|]. split.
  - intros i t Hi. eexists. split; [apply created_records_lookup; exact Hi|].
    cbn [chat_id created title]. split; [reflexivity|]. split; [reflexivity|]. split.
    + intros s -> Hs. destruct s; [contradiction | reflexivity].
    + intros [-> | ->]; reflexivity.
  - intros k ->. apply default_titles.
Qed.

Lemma substring_0_all s : String.substring 0 (String.length s) s = s.
Proof. induction s as [|c s IH]; [reflexivity|]. cbn. now rewrite IH. Qed.

Lemma substring_hex_digits k j : forall n,
  String.substring 0 k (hex_digits (k + j) n) = hex_digits k (n / 16 ^ N.of_nat j).
Proof.
  induction j as [|j IH]; intros n.
  - rewrite Nat.add_0_r. cbn [N.of_nat]. rewrite N.pow_0_r, N.div_1_r.
    rewrite <- (length_hex_digits k n) at 1. apply substring_0_all.
  - rewrite Nat.add_succ_r. cbn [hex_digits].
    rewrite substring_0_append by (rewrite length_hex_digits; lia).
    rewrite IH. f_equal. rewrite Nat2N.inj_succ, N.pow_succ_r', N.Div0.div_div.
    reflexivity.
Qed.

(** The chat identifier is the top 32 bits of the UUID in hexadecimal. *)
Lemma cid_top_bits u :
  slice_to 8 (uuid_str u) = hex_digits 8 (u mod 2 ^ 128 / 2 ^ 96).
Proof.
  rewrite (proj1 (cid_of_uuid u)).
  change 32 with (8 + 24). rewrite substring_hex_digits. reflexivity.
Qed.

(** X11. The chat identifier str(uuid.uuid4())[:8] keeps the top 32 bits
    of the UUID and nothing else, and create_chat_for_user does not look
    for the identifier in the list: when two successive UUIDs agree on
    their top 32 bits, two creations succeed and leave two records with
    the same chat_id in the user's list. *)
Theorem chat_ids_can_repeat (w : world) (uid : string) (l : list chat_rec) :
  (forall u, slice_to 8 (uuid_str u) = hex_digits 8 (u mod 2 ^ 128 / 2 ^ 96)) /\
  (list_user_chats uid w = (Ok l, w) ->
   (uuid4 (draws w) mod 2 ^ 128 / 2 ^ 96 = uuid4 (S (draws w)) mod 2 ^ 128 / 2 ^ 96)%N ->
   exists cid w' r1 r2,
     run_creates uid [None; None] w = (Ok [cid; cid], w') /\
     list_user_chats uid w' = (Ok (l ++ [r1; r2]), w') /\
     chat_id r1 = cid /\ chat_id r2 = cid).
Proof.
  split; [exact cid_top_bits|]. intros Hl Hsame.
  destruct (run_creates_spec uid [None; None] w l Hl) as (w' & Hrun & Hlist & _).
  cbv zeta in Hrun, Hlist. cbn [created_records map chat_id] in Hrun, Hlist.
  assert (E : slice_to 8 (uuid_str (uuid4 (S (draws w))))
              = slice_to 8 (uuid_str (uuid4 (draws w))))
    by (rewrite !cid_top_bits; now rewrite Hsame).
  rewrite E in Hrun, Hlist.
  eexists _, w', _, _. split; [exact Hrun|]. split; [exact Hlist|]. now split.
Qed.

(** ** The window, chat by chat *)

(** X12. The history of a chat is a sliding window. With
    MAX_CONTEXT >= 1, on a chat that holds ms0 (no more than the window),
    K more appends succeed and leave the last MAX_CONTEXT messages of
    ms0 followed by the new ones. In particular, one append to a chat
    that is not full adds the message at the end and drops nothing, and
    one append to a full chat drops exactly the oldest message. *)
Theorem window_slides (w : world) (uid cid : string) (ms0 : list message) :
  (1 <= MAX_CONTEXT)%Z ->
  holds_history w uid cid ms0 -> (Z.of_nat (length ms0) <= MAX_CONTEXT)%Z ->
  (forall rcs,
     exists w',
       run_appends (map (call_on uid cid) rcs) w = (Ok tt, w') /\
       get_chat_history uid cid w' =
         (Ok (last_n (Z.to_nat MAX_CONTEXT) (ms0 ++ stamp_from (ticks w) rcs)), w')) /\
  (forall r c,
     exists w',
       append_message uid cid r c w = (Ok tt, w') /\
       get_chat_history uid cid w' =
         (Ok ((if (Z.of_nat (length ms0) <? MAX_CONTEXT)%Z then ms0 else tl ms0)
              ++ [ {| role := r; content := c; ts := clock (ticks w) |} ]), w')).
Proof.
  intros Hn Hms Hlen. split.
  - intros rcs. destruct (run_appends_holds uid cid rcs w ms0 Hn Hms Hlen) as (w' & E & Hh).
    exists w'. split; [exact E | now apply get_chat_history_holds].
  - intros r c. destruct (append_message_holds w uid cid r c ms0 Hms) as (w' & E & Hh & _).
    exists w'. split; [exact E|]. apply get_chat_history_holds.
    rewrite range_last in Hh by exact Hn. rewrite length_app in Hh. cbn [length] in Hh.
    destruct (Z.ltb_spec (Z.of_nat (length ms0)) MAX_CONTEXT) as [Hlt|Hge].
    + replace (length ms0 + 1 - Z.to_nat MAX_CONTEXT) with 0 in Hh by lia. exact Hh.
    + replace (length ms0 + 1 - Z.to_nat MAX_CONTEXT) with 1 in Hh by lia.
      destruct ms0 as [|m0 ms0]; [cbn in Hge; lia|]. exact Hh.
Qed.

Lemma range_negative_window {A} (l : list A) (n : Z) :
  (n < 0)%Z -> Redis.range l (- n) (-1) = skipn (Z.to_nat (- n)) l.
Proof.
  intros Hn. unfold Redis.range. destruct l as [|x l].
  { cbn [length]. zcases; cbn [orb]; try lia; now rewrite ?skipn_nil. }
  remember (x :: l) as xs eqn:Exs.
  assert (Hl : 1 <= length xs) by (subst xs; cbn; lia). clear Exs.
  zcases; cbn [orb]; try lia.
  all: try (symmetry; apply skipn_all2; lia).
  all: apply firstn_all2; rewrite length_skipn; lia.
Qed.

(** X13. A window of 0 or less is not an empty window. With
    MAX_CONTEXT = 0 the trim keeps everything: any number of appends to
    a chat leaves all that it held followed by all the new messages.
    With MAX_CONTEXT = -k < 0 every append drops the k oldest of the
    list it has just extended, so that a chat which holds nothing never
    holds anything. *)
Theorem window_of_zero_or_less (w : world) (uid cid : string) (ms0 : list message) :
  holds_history w uid cid ms0 ->
  (MAX_CONTEXT = 0%Z ->
   forall rcs,
     exists w',
       run_appends (map (call_on uid cid) rcs) w = (Ok tt, w') /\
       get_chat_history uid cid w' = (Ok (ms0 ++ stamp_from (ticks w) rcs), w')) /\
  ((MAX_CONTEXT < 0)%Z ->
   (forall r c,
      exists w',
        append_message uid cid r c w = (Ok tt, w') /\
        get_chat_history uid cid w' =
          (Ok (skipn (Z.to_nat (- MAX_CONTEXT))
                 (ms0 ++ [ {| role := r; content := c; ts := clock (ticks w) |} ])), w')) /\
   (ms0 = [] ->
    forall rcs,
      exists w',
        run_appends (map (call_on uid cid) rcs) w = (Ok tt, w') /\
        get_chat_history uid cid w' = (Ok [], w'))).
Proof.
  intros Hms. split; [|split].
  - intros H0 rcs. revert w ms0 Hms.
    induction rcs as [|rc rest IH]; intros w ms0 Hms.
    + exists w. cbn [stamp_from]. rewrite app_nil_r.
      split; [reflexivity | now apply get_chat_history_holds].
    + cbn [map]. rewrite run_appends_cons.
      cbn [call_on call_uid call_cid call_role call_content].
      destruct (append_message_holds w uid cid (fst rc) (snd rc) ms0 Hms)
        as (w1 & E & Hh & Ht & _).
      rewrite E. rewrite H0 in Hh. change (- 0)%Z with 0%Z in Hh. rewrite range_all in Hh.
      destruct (IH w1 _ Hh) as (w' & Hrun & Hget).
      exists w'. split; [exact Hrun|].
      rewrite Hget, Ht, <- app_assoc. reflexivity.
  - intros r c. destruct (append_message_holds w uid cid r c ms0 Hms) as (w' & E & Hh & _).
    exists w'. split; [exact E|]. apply get_chat_history_holds.
    now rewrite range_negative_window in Hh.
  - intros -> rcs. revert w Hms.
    induction rcs as [|rc rest IH]; intros w Hms.
    + exists w. split; [reflexivity | now apply get_chat_history_holds].
    + cbn [map]. rewrite run_appends_cons.
      cbn [call_on call_uid call_cid call_role call_content].
      destruct (append_message_holds w uid cid (fst rc) (snd rc) [] Hms)
        as (w1 & E & Hh & _).
      rewrite E. rewrite range_negative_window in Hh by assumption.
      cbn [app] in Hh. rewrite skipn_all2 in Hh by (cbn; lia).
      now apply IH.
Qed.

(** ** A whole send-message call, seen from the store *)

Lemma list_user_chats_transfer w w' uid r :
  db w' !! user_chats_key uid = db w !! user_chats_key uid ->
  list_user_chats uid w = (r, w) -> list_user_chats uid w' = (r, w').
Proof.
  intros E H. pose proof (list_user_chats_same_key w w' uid E) as Hf.
  pose proof (list_user_chats_world w' uid) as Hs.
  rewrite H in Hf. cbn [fst] in Hf.
  destruct (list_user_chats uid w') as [r' w2]. cbn [fst snd] in *. congruence.
Qed.

(** The call from its first line to the end of the stream, with the
    worlds it goes through: [w0] once the chat is known, [w1] when the
    provider is asked, [w'] at the end. *)
Lemma send_message_run w data :
  let uid := default "demo_user" (req_uid data) in
  let user_msg := strip (default "" (req_message data)) in
  wf w -> user_msg <> "" ->
  exists cid w0 ms w1 lang frags w',
    ((req_chat_id data = Some cid /\ cid <> "" /\ w0 = w) \/
     (no_chat_id data /\ create_chat_for_user uid None w = (Ok cid, w0) /\
      String.length cid = 8)) /\
    holds_history w0 uid cid ms /\
    let h1 := Redis.range (ms ++ [ {| role := "user"; content := user_msg;
                                      ts := clock (ticks w0) |} ])
                          (- MAX_CONTEXT) (-1) in
    holds_history w1 uid cid h1 /\ wf w1 /\
    (forall k, k <> chat_history_key uid cid -> k <> user_lang_key uid ->
               db w1 !! k = db w0 !! k) /\
    db w1 !! user_lang_key uid = Some (RString (Plain lang)) /\
    detect_lang_safe user_msg = Ok lang /\
    api_send data w =
      respond uid cid
        (generate_content (build_prompt (join nl (map context_line h1)) lang user_msg)) w1 /\
    send_message data w = (Ok frags, w') /\ wf w' /\
    (forall k, k <> chat_history_key uid cid -> db w' !! k = db w1 !! k) /\
    (w' = w1 \/ exists text, append_message uid cid "assistant" text w1 = (Ok tt, w')).
Proof.
  intros uid user_msg Hwf Hmsg.
  destruct (api_send_ok w data Hwf Hmsg)
    as (cid & w0 & ms & w1 & lang & Hres & Hms & Hh1 & Hwf1 & Hk & Hl & Hd & Hsend).
  fold uid user_msg in Hres, Hms, Hh1, Hk, Hl, Hd, Hsend.
  set (h1 := Redis.range _ _ _) in *.
  assert (Hfin : exists frags w',
            send_message data w = (Ok frags, w') /\
            (w' = w1 \/ exists text, append_message uid cid "assistant" text w1 = (Ok tt, w'))).
  { unfold send_message. unfold bind at 1. rewrite Hsend. unfold respond.
    destruct (generate_content _) as [s|e].
    - cbn [ret resp_body drain].
      destruct (event_stream_persisted uid cid s w1 h1 Hh1) as (w' & E & Hp & _).
      exists (delivered s), w'. split; [exact E|]. unfold persisted in Hp.
      destruct (committed s); [left; exact Hp | right; eauto].
    - destruct (append_message_holds w1 uid cid "assistant" fallback h1 Hh1) as (w' & Ea & _).
      rewrite (bind_ok _ _ w1 tt w' Ea). cbn [ret resp_body drain].
      exists [fallback], w'. split; [reflexivity | right; eauto]. }
  destruct Hfin as (frags & w' & Hrun & Hw').
  exists cid, w0, ms, w1, lang, frags, w'. cbv zeta. fold h1.
  repeat (split; [assumption|]). split; [|split].
  - destruct Hw' as [->|[text Ea]]; [exact Hwf1 | eapply append_message_wf; eauto].
  - intros k Hk'. destruct Hw' as [->|[text Ea]]; [reflexivity|].
    pose proof (append_message_frame w1 uid cid "assistant" text) as Hf.
    cbv zeta in Hf. rewrite Ea in Hf. cbn [snd] in Hf. now apply Hf.
  - exact Hw'.
Qed.

(** X14. The language of a user is the one detected on the last message
    sent: after every send-message call that carries a message, on a
    well-formed store, whatever language was stored before and whatever
    the provider does, the user's language key holds what
    detect_lang_safe answers on the stripped message. *)
Theorem language_follows_last_message (w : world) (data : send_request) :
  let uid := default "demo_user" (req_uid data) in
  let user_msg := strip (default "" (req_message data)) in
  wf w -> user_msg <> "" ->
  exists frags w' lang,
    send_message data w = (Ok frags, w') /\
    detect_lang_safe user_msg = Ok lang /\
    Redis.get (user_lang_key uid) w' = (Ok (Some (Plain lang)), w').
Proof.
  intros uid user_msg Hwf Hmsg.
  destruct (send_message_run w data Hwf Hmsg)
    as (cid & w0 & ms & w1 & lang & frags & w' & _ & _ & _ & _ & _ & Hl & Hd & _ & Hrun & _
        & Hk & _).
  fold uid user_msg in Hl, Hd, Hk.
  exists frags, w', lang. split; [exact Hrun|]. split; [exact Hd|].
  unfold Redis.get. rewrite Hk by apply lang_key_not_history. now rewrite Hl.
Qed.

(** X15. What the provider is asked: for every request that carries a
    message, on a well-formed store, the handler calls the provider once,
    with the fixed instructions of the persona, in which the language
    detected on this message follows "The user's last language code: ",
    then "Conversation:" and one line "role: content" for each message
    of the history it has just read back, oldest first, then "User: "
    with the stripped message, then "Assistant:". That history is what
    the chat holds at that moment; it ends with the user's new message
    when the window is not negative and has at most MAX_CONTEXT lines
    when the window is at least 1. *)
Theorem provider_gets_windowed_prompt (w : world) (data : send_request) :
  let uid := default "demo_user" (req_uid data) in
  let user_msg := strip (default "" (req_message data)) in
  wf w -> user_msg <> "" ->
  exists cid w1 h lang,
    api_send data w =
      respond uid cid
        (generate_content
           ("You are Ira, a warm and affectionate companion. Follow these rules strictly:"
            +:+ nl +:+
            "- Reply in 5 to 10 words only." +:+ nl +:+
            "- Keep responses incomplete (do not end with a final punctuation)." +:+ nl +:+
            "- Tone: friendly, caring, sometimes romantic when appropriate; add emoji naturally."
            +:+ nl +:+
            "- Sound like a close friend and ask gentle follow-up questions when needed."
            +:+ nl +:+
            "- Mirror the user's language. The user's last language code: " +:+ lang +:+ nl +:+
            "- Avoid repeating earlier assistant replies." +:+ nl +:+
            "- Use the conversation context below." +:+ nl +:+ nl +:+
            "Conversation:" +:+ nl +:+
            join nl (map (fun m => role m +:+ ": " +:+ content m) h) +:+ nl +:+ nl +:+
            "User: " +:+ user_msg +:+ nl +:+ "Assistant:")) w1 /\
    detect_lang_safe user_msg = Ok lang /\
    get_chat_history uid cid w1 = (Ok h, w1) /\
    ((0 <= MAX_CONTEXT)%Z ->
     exists t, last h = Some {| role := "user"; content := user_msg; ts := t |}) /\
    ((1 <= MAX_CONTEXT)%Z -> (Z.of_nat (length h) <= MAX_CONTEXT)%Z).
Proof.
  intros uid user_msg Hwf Hmsg.
  destruct (send_message_run w data Hwf Hmsg)
    as (cid & w0 & ms & w1 & lang & frags & w' & _ & _ & Hh1 & _ & _ & _ & Hd & Hapi & _).
  fold uid user_msg in Hh1, Hd, Hapi.
  unfold build_prompt in Hapi.
  assert (Hlines : forall ms, map context_line ms
                              = map (fun m => role m +:+ ": " +:+ content m) ms).
  { intros l. induction l as [|m l IH]; [reflexivity|]. cbn [map]. rewrite IH.
    unfold context_line. reflexivity. }
  rewrite Hlines in Hapi.
  eexists cid, w1, _, lang. split; [exact Hapi|]. split; [exact Hd|].
  split; [now apply get_chat_history_holds|]. split.
  - intros Hn. eexists. now apply last_range_snoc.
  - intros Hn. now apply length_range_last.
Qed.

(** X16. A request without chat_id (or with an empty one) that carries a
    message opens a chat of its own: on a well-formed store the call
    succeeds, exactly one record is added at the end of the user's chat
    list, with an identifier of 8 characters and the default title
    "Chat {n+1}", and the history of that chat is then not empty (the
    window not being negative). *)
Theorem send_without_chat_opens_one (w : world) (data : send_request) (l : list chat_rec) :
  let uid := default "demo_user" (req_uid data) in
  let user_msg := strip (default "" (req_message data)) in
  wf w -> user_msg <> "" -> no_chat_id data ->
  list_user_chats uid w = (Ok l, w) ->
  let cid := slice_to 8 (uuid_str (uuid4 (draws w))) in
  exists frags w' h,
    send_message data w = (Ok frags, w') /\
    String.length cid = 8 /\
    list_user_chats uid w' =
      (Ok (l ++ [ {| chat_id := cid; title := "Chat " +:+ str_of_nat (length l + 1);
                     created := clock (ticks w) |} ]), w') /\
    get_chat_history uid cid w' = (Ok h, w') /\
    ((0 <= MAX_CONTEXT)%Z -> h <> []).
Proof.
  intros uid user_msg Hwf Hmsg Hno Hl cid.
  destruct (send_message_run w data Hwf Hmsg)
    as (cid' & w0 & ms & w1 & lang & frags & w' & Hres & Hms & Hh1 & Hwf1 & Hk1 & _ & _ & _
        & Hrun & Hwf' & Hk' & Hw').
  fold uid user_msg in Hres, Hms, Hh1, Hk1, Hk', Hw'.
  pose proof (create_chat_for_user_spec w uid None l Hl) as Hcr. cbv zeta in Hcr.
  fold cid in Hcr.
  destruct Hres as [(Hc & Hne & _)|(_ & Hcr' & Hlen)].
  { destruct Hno as [Hn|Hn]; rewrite Hn in Hc; congruence. }
  rewrite Hcr in Hcr'. injection Hcr' as <- <-.
  set (rec := {| chat_id := cid; title := title_or_default None (length l);
                 created := clock (ticks w) |}) in *.
  assert (Hlist : list_user_chats uid w' = (Ok (l ++ [rec]), w')).
  { eapply list_user_chats_transfer; [|apply list_user_chats_after_set].
    rewrite Hk' by apply chats_key_not_history.
    rewrite Hk1; [reflexivity | apply chats_key_not_history | apply chats_key_not_lang]. }
  set (u := {| role := "user"; content := user_msg; ts := _ |}) in Hh1.
  destruct Hw' as [->|[text Ea]].
  - eexists frags, w1, _. split; [exact Hrun|]. split; [exact Hlen|].
    split; [exact Hlist|]. split; [apply get_chat_history_holds; exact Hh1|].
    intros Hn E. pose proof (last_range_snoc ms u _ Hn) as H. now rewrite E in H.
  - destruct (append_message_holds w1 uid cid "assistant" text _ Hh1)
      as (w2 & Ea' & Hh2 & _).
    rewrite Ea in Ea'. injection Ea' as <-.
    eexists frags, w', _. split; [exact Hrun|]. split; [exact Hlen|].
    split; [exact Hlist|]. split; [apply get_chat_history_holds; exact Hh2|].
    intros Hn E. pose proof (last_range_snoc
        (Redis.range (ms ++ [u]) (- MAX_CONTEXT) (-1))
        {| role := "assistant"; content := text; ts := clock (ticks w1) |} _ Hn) as H.
    now rewrite E in H.
Qed.

(** X17. A send-message call stays within its user and its chat: on a
    well-formed store, for a request that carries a message, the call
    leaves every other user's chat list and language as they were, and
    the history of every chat whose key is not that of the chat it
    served; when the request names its chat, the user's own chat list is
    left as it was too. *)
Theorem send_message_stays_in_its_chat (w : world) (data : send_request) :
  let uid := default "demo_user" (req_uid data) in
  let user_msg := strip (default "" (req_message data)) in
  wf w -> user_msg <> "" ->
  exists cid frags w',
    send_message data w = (Ok frags, w') /\
    (forall c, req_chat_id data = Some c -> c <> "" ->
       cid = c /\ fst (list_user_chats uid w') = fst (list_user_chats uid w)) /\
    (forall uid', uid' <> uid ->
       fst (list_user_chats uid' w') = fst (list_user_chats uid' w) /\
       fst (Redis.get (user_lang_key uid') w') = fst (Redis.get (user_lang_key uid') w)) /\
    (forall uid' cid', chat_history_key uid' cid' <> chat_history_key uid cid ->
       fst (get_chat_history uid' cid' w') = fst (get_chat_history uid' cid' w)).
Proof.
  intros uid user_msg Hwf Hmsg.
  destruct (send_message_run w data Hwf Hmsg)
    as (cid & w0 & ms & w1 & lang & frags & w' & Hres & _ & _ & _ & Hk1 & _ & _ & _
        & Hrun & _ & Hk' & _).
  fold uid user_msg in Hres, Hk1, Hk'.
  assert (Hk0 : forall k, k <> user_chats_key uid -> db w0 !! k = db w !! k).
  { intros k Hk. destruct Hres as [(_ & _ & ->)|(_ & Hcr & _)]; [reflexivity|].
    pose proof (create_chat_for_user_frame w uid None k Hk) as H.
    now rewrite Hcr in H. }
  assert (Hall : forall k, k <> chat_history_key uid cid -> k <> user_lang_key uid ->
                           k <> user_chats_key uid -> db w' !! k = db w !! k).
  { intros k H1 H2 H3. now rewrite Hk', Hk1, Hk0. }
  assert (Huser : forall uid', uid' <> uid -> user_chats_key uid' <> user_chats_key uid).
  { intros uid' Hne E. apply Hne. unfold user_chats_key in E.
    apply append_inj_l in E. now apply append_inj_r in E. }
  assert (Hlang : forall uid', uid' <> uid -> user_lang_key uid' <> user_lang_key uid).
  { intros uid' Hne E. apply Hne. unfold user_lang_key in E.
    apply append_inj_l in E. now apply append_inj_r in E. }
  exists cid, frags, w'. split; [exact Hrun|]. split; [|split].
  - intros c Hc Hne.
    destruct Hres as [(Hc' & _ & ->)|([Hc'|Hc'] & _)]; try congruence.
    split; [congruence|]. apply list_user_chats_same_key.
    rewrite Hk' by apply chats_key_not_history.
    apply Hk1; [apply chats_key_not_history | apply chats_key_not_lang].
  - intros uid' Hne. split.
    + apply list_user_chats_same_key, Hall;
        [apply chats_key_not_history | apply chats_key_not_lang | now apply Huser].
    + apply get_lang_same_key, Hall; [apply lang_key_not_history | now apply Hlang |].
      intros E. symmetry in E. revert E. apply chats_key_not_lang.
  - intros uid' cid' Hne. apply get_chat_history_same_key, Hall; [exact Hne | |].
    + intros E. symmetry in E. revert E. apply lang_key_not_history.
    + intros E. symmetry in E. revert E. apply chats_key_not_history.
Qed.

(** ** The stream, at its edges *)

Lemma normalize_blank s : all_chars is_space s = true -> normalize s = "".
Proof.
  intros H. rewrite normalize_join_split.
  assert (E : split_ws s = []).
  { unfold split_ws. induction s as [|c s IH]; [reflexivity|].
    cbn [all_chars findall] in *. apply andb_prop in H as [Hc Hs].
    rewrite Hc. cbn [negb]. now apply IH. }
  now rewrite E.
Qed.

(** X18. A reply without a word is streamed but never stored: when the
    pieces gathered from the stream hold whitespace only, or when there
    is no piece at all (an empty stream, an exception before the first
    piece), event_stream delivers its fragments and leaves the world
    exactly as it was, on any store. An empty stream that ends normally
    delivers no fragment at all. *)
Theorem blank_reply_not_stored (w : world) (uid cid : string) (s : stream) :
  all_chars is_space (cat (pieces_before (chunks s))) = true ->
  event_stream uid cid s w = (Ok (delivered s), w) /\
  (chunks s = [] -> ending s = None -> delivered s = []).
Proof.
  intros Hblank. split.
  - rewrite event_stream_spec. unfold committed.
    now rewrite (normalize_blank _ Hblank).
  - intros Hc He. unfold delivered. now rewrite Hc, He.
Qed.

Lemma pieces_before_stop cs1 c cs2 e :
  piece_of c = Raise e ->
  pieces_before (cs1 ++ c :: cs2) = pieces_before cs1 /\
  forall fin, first_error (cs1 ++ c :: cs2) fin
              = match first_error cs1 None with Some e1 => Some e1 | None => Some e end.
Proof.
  intros Hc. induction cs1 as [|x cs1 [IH1 IH2]]; cbn [app pieces_before first_error].
  - rewrite Hc. now split.
  - destruct (piece_of x); [|now split]. split; [now rewrite IH1 | exact IH2].
Qed.

(** X19. After the first exception nothing more of the stream is read:
    when reading the text of a chunk raises, the chunks that follow it
    and the way the stream would have ended change neither what
    event_stream delivers nor what it stores; if every chunk before it
    gave its piece, the client gets these pieces and then the diagnostic
    fragment of that exception. *)
Theorem stream_stops_at_first_exception (w : world) (uid cid : string)
    (cs1 cs2 : list chunk) (c : chunk) (e : exn) (fin fin' : option exn) :
  piece_of c = Raise e ->
  event_stream uid cid {| chunks := cs1 ++ c :: cs2; ending := fin |} w
    = event_stream uid cid {| chunks := cs1 ++ [c]; ending := fin' |} w /\
  (first_error cs1 None = None ->
   delivered {| chunks := cs1 ++ c :: cs2; ending := fin |}
     = pieces_before cs1 ++ [error_fragment e]).
Proof.
  intros Hc.
  destruct (pieces_before_stop cs1 c cs2 e Hc) as [Hp He].
  destruct (pieces_before_stop cs1 c [] e Hc) as [Hp' He'].
  split.
  - rewrite !event_stream_spec. unfold committed, delivered. cbn [chunks ending].
    now rewrite Hp, Hp', He, He'.
  - intros Hnone. unfold delivered. cbn [chunks ending]. now rewrite Hp, He, Hnone.
Qed.

(** ** A call and the page that shows it *)

Lemma range_two_newest {A} (ms : list A) (u a : A) (n : Z) :
  (2 <= n)%Z ->
  exists pre, Redis.range (Redis.range (ms ++ [u]) (- n) (-1) ++ [a]) (- n) (-1)
              = pre ++ [u; a].
Proof.
  intros Hn. rewrite !range_last by lia.
  fold (last_n (Z.to_nat n) (ms ++ [u])).
  fold (last_n (Z.to_nat n) (last_n (Z.to_nat n) (ms ++ [u]) ++ [a])).
  rewrite last_n_app_last_n, <- app_assoc. cbn [app]. unfold last_n.
  rewrite skipn_app, length_app. cbn [length].
  replace (length ms + 2 - Z.to_nat n - length ms) with 0 by lia.
  eexists. reflexivity.
Qed.

Lemma range_newest {A} (ms : list A) (u : A) (n : Z) :
  (1 <= n)%Z -> exists pre, Redis.range (ms ++ [u]) (- n) (-1) = pre ++ [u].
Proof.
  intros Hn. rewrite range_last by lia. rewrite skipn_app, length_app. cbn [length].
  replace (length ms + 1 - Z.to_nat n - length ms) with 0 by lia.
  eexists. reflexivity.
Qed.

(** X20. A conversation reads back as it went. With MAX_CONTEXT >= 2, on
    a well-formed store, after a send-message call that names its chat
    and carries a message, GET /chat/{cid} succeeds and shows a history
    that ends with the user's stripped message followed by the
    assistant's turn: the fallback text when the provider could not be
    invoked, the normalized reply when there is one; the user's message
    is the last one when the reply has no word. *)
Theorem conversation_reads_back (w : world) (data : send_request) (c : ascii) (t : string) :
  let uid := default "demo_user" (req_uid data) in
  let cid := String c t in
  let user_msg := strip (default "" (req_message data)) in
  wf w -> (2 <= MAX_CONTEXT)%Z ->
  req_chat_id data = Some cid -> user_msg <> "" ->
  exists frags w' ctx pre tu ta,
    send_message data w = (Ok frags, w') /\
    open_chat (req_uid data) cid w' = (Ok ctx, w') /\
    ctx_cid ctx = cid /\ ctx_uid ctx = uid /\
    let u := {| role := "user"; content := user_msg; ts := tu |} in
    ((exists prompt e, generate_content prompt = Raise e /\
        ctx_history ctx = pre ++ [u; {| role := "assistant"; content := fallback; ts := ta |}]) \/
     (exists prompt s, generate_content prompt = Ok s /\ committed s <> "" /\
        ctx_history ctx
          = pre ++ [u; {| role := "assistant"; content := committed s; ts := ta |}]) \/
     (exists prompt s, generate_content prompt = Ok s /\ committed s = "" /\
        ctx_history ctx = pre ++ [u])).
Proof.
  intros uid cid user_msg Hwf Hn Hcid Hmsg.
  destruct (send_message_ok w data Hwf Hmsg)
    as (cid' & w0 & ms & w1 & answer & Hres & _ & Hh1 & Hwf1 & _ & [prompt Hans] & _ & Hsend).
  fold uid user_msg in Hres, Hh1, Hsend.
  assert (cid' = cid /\ w0 = w) as [-> ->].
  { destruct Hres as [(Hc' & _ & Hw)|([Hc'|Hc'] & _)];
      rewrite Hc' in Hcid; unfold cid in *; [|discriminate..].
    split; congruence. }
  set (u := {| role := "user"; content := user_msg; ts := clock (ticks w) |}) in *.
  assert (Hopen : forall w' h, wf w' -> holds_history w' uid cid h ->
            open_chat (req_uid data) cid w' =
              (Ok {| ctx_chats := match fst (list_user_chats uid w') with
                                  | Ok l => l | Raise _ => [] end;
                     ctx_cid := cid; ctx_uid := uid; ctx_history := h |}, w')).
  { intros w' h Hwf' Hh. destruct (wf_list_user_chats w' uid Hwf') as [l Hl].
    unfold open_chat. fold uid.
    rewrite (bind_ok _ _ w' l w' Hl).
    rewrite (bind_ok _ _ w' h w' (get_chat_history_holds _ _ _ _ Hh)).
    rewrite Hl. reflexivity. }
  destruct answer as [s|e].
  - destruct (event_stream_persisted uid cid s w1 _ Hh1) as (w' & E & Hp & Hh2).
    rewrite E in Hsend. unfold persisted in Hp.
    destruct (committed s) as [|c0 t0] eqn:Ec.
    + subst w'. destruct (range_newest ms u MAX_CONTEXT ltac:(lia)) as [pre Hpre].
      rewrite Hpre in Hh1.
      eexists _, w1, _, pre, _, 0%Z. split; [exact Hsend|].
      split; [exact (Hopen w1 _ Hwf1 Hh1)|]. split; [reflexivity|]. split; [reflexivity|].
      right. right. exists prompt, s. rewrite Ec. now repeat split.
    + specialize (Hh2 ltac:(discriminate)).
      destruct (range_two_newest ms u
                  {| role := "assistant"; content := String c0 t0; ts := clock (ticks w1) |}
                  MAX_CONTEXT Hn) as [pre Hpre].
      rewrite Hpre in Hh2.
      assert (Hwf' : wf w') by (eapply append_message_wf; eauto).
      eexists _, w', _, pre, _, _. split; [exact Hsend|].
      split; [exact (Hopen w' _ Hwf' Hh2)|]. split; [reflexivity|]. split; [reflexivity|].
      right. left. exists prompt, s. rewrite Ec. repeat split; [now symmetry | discriminate].
  - destruct (append_message_holds w1 uid cid "assistant" fallback _ Hh1)
      as (w' & Ea & Hh2 & _).
    rewrite (bind_ok _ _ w1 tt w' Ea) in Hsend.
    destruct (range_two_newest ms u
                {| role := "assistant"; content := fallback; ts := clock (ticks w1) |}
                MAX_CONTEXT Hn) as [pre Hpre].
    rewrite Hpre in Hh2.
    assert (Hwf' : wf w') by (eapply append_message_wf; eauto).
    eexists _, w', _, pre, _, _. split; [exact Hsend|].
    split; [exact (Hopen w' _ Hwf' Hh2)|]. split; [reflexivity|]. split; [reflexivity|].
    left. exists prompt, e. split; [now symmetry | reflexivity].
Qed.

(** ** Any sequence of requests *)












End Program.

(** ** The detector as a function of its input *)

(** try: m  except Exception: handler(e) *)
Definition try_except {A} (m : M A) (handler : exn -> M A) : M A :=
  fun w => match m w with
           | (Ok a, w') => (Ok a, w')
           | (Raise e, w') => handler e w'
           end.

(** detect_lang_safe run in the world, over a detection routine that is
    free to read and to change the world: what the body of the function
    does around the call of detect(text). *)
Definition detect_lang_safe_in (routine : string -> M string) (text : string) : M string :=
  code <- try_except (routine text) (fun _ => ret "en") ;;
  let words := findall is_word_char (lower text) in
  let hindi_hits := count_hits hindi_keywords words in
  let eng_hits := count_hits english_words words in
  if startswith "hi" code || (2 <=? hindi_hits) then ret "hi"
  else if negb (hindi_hits =? 0) && negb (eng_hits =? 0) then ret "hi"
  else ret "en".

(** C4. detect_lang_safe is total and pure. (a) For every text it
    returns, and returns "hi" or "en", whatever detect does. (b) When
    detect raises, the answer is the one a statistical code "en" would
    give and the keyword heuristic decides alone: "hi" exactly with two
    hits of the Hindi lexicon or one together with a hit of the English
    lexicon (hits counted as the spec words them), "en" otherwise.
    (c) The answer depends on the detector only through whether its
    code starts with "hi": beyond that it is a function of the text and
    the two lexicons. (d) Run in the world over a routine that may
    itself have effects, the function adds none: it returns "hi" or
    "en" and leaves the world as the routine left it, and over a
    routine without effects it is detect_lang_safe with the world
    untouched. *)
Theorem detect_lang_safe_total_pure (detect : string -> result string) (text : string) :
  let hh := matching_tokens hindi_keywords text in
  let eh := matching_tokens english_words text in
  (detect_lang_safe detect text = Ok "hi" \/ detect_lang_safe detect text = Ok "en") /\
  (forall e, detect text = Raise e ->
     detect_lang_safe detect text = detect_lang_safe (fun _ => Ok "en") text /\
     (detect_lang_safe detect text = Ok "hi" <-> 2 <= hh \/ (1 <= hh /\ 1 <= eh)) /\
     (detect_lang_safe detect text = Ok "en" <-> hh = 0 \/ (hh = 1 /\ eh = 0))) /\
  (forall detect' : string -> result string,
     (hindi_code (detect' text) <-> hindi_code (detect text)) ->
     detect_lang_safe detect' text = detect_lang_safe detect text) /\
  (forall (routine : string -> M string) (w : world),
     snd (detect_lang_safe_in routine text w) = snd (routine text w) /\
     (fst (detect_lang_safe_in routine text w) = Ok "hi" \/
      fst (detect_lang_safe_in routine text w) = Ok "en") /\
     (routine text w = (detect text, w) ->
      detect_lang_safe_in routine text w = (detect_lang_safe detect text, w))).
Proof.
  intros hh eh. subst hh eh.
  rewrite <- hindi_hits_matching, <- eng_hits_matching.
  split; [apply detect_lang_safe_total|]. split; [|split].
  - intros e He. rewrite !detect_lang_safe_cases. unfold statistical_code. rewrite He.
    assert (Hp : startswith "hi" "en" = false) by reflexivity. rewrite Hp.
    split; [reflexivity|].
    destruct (Nat.leb_spec 2 (hindi_hits text)) as [H2|H2];
      destruct (Nat.eqb_spec (hindi_hits text) 0) as [Hh|Hh];
      destruct (Nat.eqb_spec (eng_hits text) 0) as [Hg|Hg]; cbn [negb andb];
      (split; split; intros H; try reflexivity; try discriminate H; try lia;
       try (exfalso; lia)).
  - intros detect' E. rewrite !detect_lang_safe_cases.
    rewrite <- !hindi_code_statistical in E.
    destruct (startswith "hi" (statistical_code detect' text)),
             (startswith "hi" (statistical_code detect text)); try reflexivity.
    + discriminate (proj1 E eq_refl).
    + discriminate (proj2 E eq_refl).
  - intros routine w. unfold detect_lang_safe_in, bind, try_except, ret.
    fold (words_of text). fold (hindi_hits text) (eng_hits text).
    destruct (routine text w) as [[code|e] w1] eqn:Er; cbn [fst snd].
    + split; [|split].
      * destruct (startswith "hi" code || (2 <=? hindi_hits text)); [reflexivity|].
        destruct (negb (hindi_hits text =? 0) && negb (eng_hits text =? 0)); reflexivity.
      * destruct (startswith "hi" code || (2 <=? hindi_hits text)); [now left|].
        destruct (negb (hindi_hits text =? 0) && negb (eng_hits text =? 0));
          [now left | now right].
      * intros E. injection E as E1 E2. subst w1.
        unfold detect_lang_safe, statistical_code. rewrite <- E1.
        destruct (startswith "hi" code || (2 <=? hindi_hits text)); [reflexivity|].
        destruct (negb (hindi_hits text =? 0) && negb (eng_hits text =? 0)); reflexivity.
    + split; [|split].
      * destruct (startswith "hi" "en" || (2 <=? hindi_hits text)); [reflexivity|].
        destruct (negb (hindi_hits text =? 0) && negb (eng_hits text =? 0)); reflexivity.
      * destruct (startswith "hi" "en" || (2 <=? hindi_hits text)); [now left|].
        destruct (negb (hindi_hits text =? 0) && negb (eng_hits text =? 0));
          [now left | now right].
      * intros E. injection E as E1 E2. subst w1.
        unfold detect_lang_safe, statistical_code. rewrite <- E1.
        destruct (startswith "hi" "en" || (2 <=? hindi_hits text)); [reflexivity|].
        destruct (negb (hindi_hits text =? 0) && negb (eng_hits text =? 0)); reflexivity.
Qed.

(** ** Concrete runs *)

(** A clock that ticks once per reading, a uuid generator, a detector
    that finds no features, and three providers: one that cannot be
    reached, one that streams the three fragments of the scenario, one
    that breaks after its first fragment. *)
Definition demo_clock (n : nat) : timestamp := Z.of_nat n.

Definition demo_uuid4 (n : nat) : N := (3735928559 * 2 ^ 96 + N.of_nat n)%N.

Definition no_features (text : string) : result string :=
  Raise (PyException "LangDetectException" "No features in text.").


Definition provider_three (prompt : string) : result stream :=
  Ok (three_fragments "" "" "").


Definition hello_in (cid : string) : send_request :=
  {| req_uid := Some "u1"; req_chat_id := Some cid; req_message := Some "hello" |}.

Definition three_calls : list append_call :=
  [ {| call_uid := "u1"; call_cid := "c1"; call_role := "user"; call_content := "a" |};
    {| call_uid := "u1"; call_cid := "c1"; call_role := "assistant"; call_content := "b" |};
    {| call_uid := "u1"; call_cid := "c1"; call_role := "user"; call_content := "c" |} ].

(** X22, an instance: a window of 2 and three appends from the empty store. *)
Lemma history_length_bounded_witness :
  (1 <= 2)%Z /\ wf empty_world /\ bounded 2 empty_world /\
  exists w',
    run_appends 2 demo_clock three_calls empty_world = (Ok tt, w') /\
    forall uid cid,
      exists h, get_chat_history uid cid w' = (Ok h, w') /\ (Z.of_nat (length h) <= 2)%Z.
Proof.
  split; [lia|]. split; [exact wf_empty_world|]. split; [exact (bounded_empty_world 2)|].
  exact (proj2 (history_length_bounded 2 demo_clock empty_world ltac:(lia) wf_empty_world)
               (bounded_empty_world 2) three_calls).
Defined.

(** C1, the code at the failing input MAX_CONTEXT = 0: the trim
    r.ltrim(key, -MAX_CONTEXT, -1) is then LTRIM key 0 -1, which keeps
    the whole list instead of its last 0 elements, so after one append
    the history has one message, more than the window. *)
Lemma window_zero_keeps_everything :
  let w1 := snd (append_message 0 demo_clock "u1" "c1" "user" "hello" empty_world) in
  fst (append_message 0 demo_clock "u1" "c1" "user" "hello" empty_world) = Ok tt /\
  exists h,
    fst (get_chat_history "u1" "c1" w1) = Ok h /\
    h = [ {| role := "user"; content := "hello"; ts := 0%Z |} ] /\
    ~ (Z.of_nat (length h) <= 0)%Z.
Proof.
  cbv zeta. split; [vm_compute; reflexivity|].
  eexists. split; [vm_compute; reflexivity|]. split; [reflexivity|]. cbn. lia.
Qed.

(** X23, an instance: a window of 2 and three messages. *)
Lemma history_is_fifo_window_witness :
  (1 <= 2)%Z /\ db empty_world !! chat_history_key "u1" "c1" = None /\
  exists w',
    run_appends 2 demo_clock
      (map (call_on "u1" "c1") [("user", "a"); ("assistant", "b"); ("user", "c")])
      empty_world = (Ok tt, w') /\
    get_chat_history "u1" "c1" w' =
      (Ok [ {| role := "assistant"; content := "b"; ts := 1%Z |};
            {| role := "user"; content := "c"; ts := 2%Z |} ], w').
Proof.
  split; [lia|]. split; [apply lookup_empty|].
  destruct (history_is_fifo_window 2 demo_clock empty_world "u1" "c1"
              [("user", "a"); ("assistant", "b"); ("user", "c")]
              ltac:(lia) (lookup_empty _)) as (w' & Hrun & Hget & _).
  exists w'. split; [exact Hrun | exact Hget].
Defined.

(** C2, the code at the failing input MAX_CONTEXT = 0: one message
    appended to an empty chat (K = 1 > N = 0) reads back, where the
    last 0 messages are none; LTRIM key 0 -1 trimmed nothing. *)
Lemma window_zero_not_last_n :
  let w1 := snd (run_appends 0 demo_clock (map (call_on "u1" "c1") [("user", "m1")])
                   empty_world) in
  (0 < Z.of_nat (length [("user", "m1")]))%Z /\
  fst (get_chat_history "u1" "c1" w1)
    = Ok [ {| role := "user"; content := "m1"; ts := 0%Z |} ] /\
  fst (get_chat_history "u1" "c1" w1)
    <> Ok (last_n (Z.to_nat 0) (stamp_from demo_clock 0 [("user", "m1")])).
Proof.
  cbv zeta. split; [cbn; lia|].
  assert (E : fst (get_chat_history "u1" "c1"
                     (snd (run_appends 0 demo_clock
                             (map (call_on "u1" "c1") [("user", "m1")]) empty_world)))
              = Ok [ {| role := "user"; content := "m1"; ts := 0%Z |} ])
    by (vm_compute; reflexivity).
  split; [exact E|]. rewrite E. vm_compute. discriminate.
Qed.

(** A detector that answers one code whatever the text. *)
Definition answers (code : string) (text : string) : result string := Ok code.

(** C3, four instances: two Hindi hits written with capitals; one Hindi
    hit mixed with an English function word written with a capital; a
    statistical code "hi" on a text without any hit; one Hindi hit
    alone with a statistical code "en". *)
Lemma detect_lang_safe_decision_witness :
  (2 <= matching_tokens hindi_keywords "KYA Kar rahe ho?" /\
   detect_lang_safe no_features "KYA Kar rahe ho?" = Ok "hi") /\
  (matching_tokens hindi_keywords "Is yaar" = 1 /\
   1 <= matching_tokens english_words "Is yaar" /\
   detect_lang_safe (answers "en") "Is yaar" = Ok "hi") /\
  (hindi_code (answers "hi" "hello there") /\
   detect_lang_safe (answers "hi") "hello there" = Ok "hi") /\
  (~ hindi_code (answers "en" "kya hello") /\
   matching_tokens hindi_keywords "kya hello" = 1 /\
   matching_tokens english_words "kya hello" = 0 /\
   detect_lang_safe (answers "en") "kya hello" = Ok "en").
Proof.
  pose proof (detect_lang_safe_decision no_features "KYA Kar rahe ho?") as H1.
  pose proof (detect_lang_safe_decision (answers "en") "Is yaar") as H2.
  pose proof (detect_lang_safe_decision (answers "hi") "hello there") as H3.
  pose proof (detect_lang_safe_decision (answers "en") "kya hello") as H4.
  cbv zeta in H1, H2, H3, H4.
  destruct H1 as (_ & _ & H1 & _). destruct H2 as (_ & _ & _ & H2).
  destruct H3 as (H3 & _). destruct H4 as (_ & H4 & _).
  assert (Ha : 2 <= matching_tokens hindi_keywords "KYA Kar rahe ho?") by (vm_compute; lia).
  assert (Hb : matching_tokens hindi_keywords "Is yaar" = 1) by (vm_compute; reflexivity).
  assert (Hc : 1 <= matching_tokens english_words "Is yaar") by (vm_compute; lia).
  assert (Hd : hindi_code (answers "hi" "hello there")) by (exists EmptyString; reflexivity).
  assert (He : ~ hindi_code (answers "en" "kya hello")).
  { intros (rest & E). cbv in E. discriminate E. }
  assert (Hf : matching_tokens hindi_keywords "kya hello" = 1) by (vm_compute; reflexivity).
  assert (Hg : matching_tokens english_words "kya hello" = 0) by (vm_compute; reflexivity).
  split; [split; [exact Ha | exact (H1 Ha)]|].
  split; [split; [exact Hb | split; [exact Hc | exact (H2 Hb Hc)]]|].
  split; [split; [exact Hd | apply H3; left; exact Hd]|].
  split; [exact He|]. split; [exact Hf|]. split; [exact Hg|].
  apply H4. intros [Hs | [Ht | [_ Hm]]]; [exact (He Hs) | |].
  - rewrite Hf in Ht. lia.
  - rewrite Hg in Hm. lia.
Defined.

(** C4, two instances with a detector that gives up: the keywords make
    the first text Hindi, and find nothing in the second. *)
Lemma detect_lang_safe_total_pure_witness :
  no_features "Kya haal HAI" = Raise (PyException "LangDetectException" "No features in text.") /\
  detect_lang_safe no_features "Kya haal HAI" = Ok "hi" /\
  detect_lang_safe no_features "hello there" = Ok "en" /\
  detect_lang_safe no_features "hello there" = detect_lang_safe (answers "en") "hello there".
Proof.
  destruct (detect_lang_safe_total_pure no_features "Kya haal HAI") as (_ & H1 & _).
  destruct (detect_lang_safe_total_pure no_features "hello there") as (_ & H2 & _).
  destruct (H1 _ eq_refl) as (_ & H1hi & _).
  destruct (H2 _ eq_refl) as (H2eq & _ & H2en).
  split; [reflexivity|].
  split; [apply H1hi; left; vm_compute; lia|].
  split; [apply H2en; left; vm_compute; reflexivity|].
  exact H2eq.
Defined.

(** C5, the scenario on the empty store. *)
Lemma stream_end_commits_normalized_witness :
  holds_history empty_world "u1" "c1" [] /\
  exists w',
    event_stream 20 demo_clock "u1" "c1" (three_fragments "" "" "") empty_world
      = (Ok ["Hi "; "there" +:+ nl; " friend"], w') /\
    append_message 20 demo_clock "u1" "c1" "assistant" "Hi there friend" empty_world
      = (Ok tt, w').
Proof.
  assert (H : holds_history empty_world "u1" "c1" [])
    by (apply holds_history_absent, lookup_empty).
  split; [exact H|].
  exact (proj2 (stream_end_commits_normalized 20 demo_clock empty_world "u1" "c1" [] H)
               "" "" "").
Defined.





(** C8, an instance: a message of blanks, a tab and a newline. *)
Lemma blank_message_rejected_witness :
  let data := {| req_uid := Some "u1"; req_chat_id := Some "c1";
                 req_message := Some (" " +:+ String (ascii_of_nat 9) "" +:+ nl +:+ " ") |} in
  all_chars is_space (default "" (req_message data)) = true /\
  api_send 20 demo_clock demo_uuid4 no_features provider_three data empty_world
    = (Raise (HTTPException 400 "message required"), empty_world).
Proof.
  cbv zeta. split; [reflexivity|].
  exact (proj1 (blank_message_rejected 20 demo_clock demo_uuid4 no_features provider_three
                  empty_world
                  {| req_uid := Some "u1"; req_chat_id := Some "c1";
                     req_message := Some (" " +:+ String (ascii_of_nat 9) "" +:+ nl +:+ " ") |}
                  eq_refl)).
Defined.

(** A store where user u1 has nine chats. *)
Definition nine_chats : list chat_rec :=
  map (fun i => {| chat_id := "0000000" +:+ str_of_nat i;
                   title := "Chat " +:+ str_of_nat i; created := Z.of_nat i |})
      (seq 1 9).

Definition world_of_nine : world :=
  {| db := {[ user_chats_key "u1" := RString (ChatsJson nine_chats) ]};
     ticks := 9; draws := 9 |}.

(** C9: the scenario (the first chat of user u1), then a tenth chat
    with a title, with an empty title, and with none. *)
Lemma create_chat_appends_record_witness :
  (db empty_world !! user_chats_key "u1" = None /\
   exists cid w',
     create_chat_for_user demo_clock demo_uuid4 "u1" None empty_world = (Ok cid, w') /\
     String.length cid = 8 /\
     list_user_chats "u1" w' =
       (Ok [ {| chat_id := cid; title := "Chat 1"; created := 0%Z |} ], w')) /\
  list_user_chats "u1" world_of_nine = (Ok nine_chats, world_of_nine) /\
  (exists cid w',
     create_chat_for_user demo_clock demo_uuid4 "u1" (Some "Plans") world_of_nine
       = (Ok cid, w') /\
     list_user_chats "u1" w' =
       (Ok (nine_chats ++ [ {| chat_id := cid; title := "Plans"; created := 9%Z |} ]), w')) /\
  (exists cid w',
     create_chat_for_user demo_clock demo_uuid4 "u1" (Some "") world_of_nine
       = (Ok cid, w') /\
     list_user_chats "u1" w' =
       (Ok (nine_chats ++ [ {| chat_id := cid; title := "Chat 10"; created := 9%Z |} ]), w')) /\
  (exists cid w',
     create_chat_for_user demo_clock demo_uuid4 "u1" None world_of_nine
       = (Ok cid, w') /\
     list_user_chats "u1" w' =
       (Ok (nine_chats ++ [ {| chat_id := cid; title := "Chat 10"; created := 9%Z |} ]), w')).
Proof.
  assert (Hl : list_user_chats "u1" world_of_nine = (Ok nine_chats, world_of_nine))
    by (vm_compute; reflexivity).
  split.
  { split; [apply lookup_empty|].
    exact (proj2 (proj2 (create_chat_appends_record demo_clock demo_uuid4 empty_world "u1"
                           None) (lookup_empty _))). }
  split; [exact Hl|].
  split; [|split].
  - destruct (proj1 (create_chat_appends_record demo_clock demo_uuid4 world_of_nine "u1"
                       (Some "Plans")) _ Hl) as (cid & ttl & w' & H1 & _ & H2 & Hgiven & _).
    exists cid, w'. split; [exact H1|].
    rewrite <- (Hgiven "Plans" eq_refl ltac:(discriminate)). exact H2.
  - destruct (proj1 (create_chat_appends_record demo_clock demo_uuid4 world_of_nine "u1"
                       (Some "")) _ Hl) as (cid & ttl & w' & H1 & _ & H2 & _ & Hdef).
    exists cid, w'. split; [exact H1|].
    rewrite (Hdef (or_intror eq_refl)) in H2. exact H2.
  - destruct (proj1 (create_chat_appends_record demo_clock demo_uuid4 world_of_nine "u1"
                       None) _ Hl) as (cid & ttl & w' & H1 & _ & H2 & _ & Hdef).
    exists cid, w'. split; [exact H1|].
    rewrite (Hdef (or_introl eq_refl)) in H2. exact H2.
Defined.

(** C10, an instance: a chat_id that no chat list holds. *)
Lemma history_ignores_chat_list_witness :
  wf empty_world /\
  strip (default "" (req_message (hello_in "nowhere"))) <> "" /\
  fst (list_user_chats "u1" empty_world) = Ok [] /\
  exists frags w2 h,
    send_message 20 demo_clock demo_uuid4 no_features provider_three
      (hello_in "nowhere") empty_world = (Ok frags, w2) /\
    fst (list_user_chats "u1" w2) = fst (list_user_chats "u1" empty_world) /\
    get_chat_history "u1" "nowhere" w2 = (Ok h, w2) /\ h <> [].
Proof.
  assert (Hm : strip (default "" (req_message (hello_in "nowhere"))) <> "")
    by (vm_compute; discriminate).
  split; [exact wf_empty_world|]. split; [exact Hm|].
  split; [reflexivity|].
  destruct (history_ignores_chat_list 20 demo_clock demo_uuid4 no_features provider_three)
    as (_ & _ & _ & _ & Hsend).
  destruct (proj2 (Hsend empty_world (hello_in "nowhere") "n"%char "owhere" wf_empty_world
                     eq_refl Hm)) as (frags & w2 & h & H1 & H2 & H3 & H4).
  exists frags, w2, h. repeat split; try assumption. apply H4. lia.
Defined.

(** C10 as stated fails for identifiers that hold ':': the chat "c" of
    user "a:b" and the chat "b:c" of user "a" have the same history key,
    so after one append to the former the latter, to which nothing was
    appended, reads back with a message. *)
Lemma history_keys_alias :
  let w1 := snd (append_message 20 demo_clock "a:b" "c" "user" "hello" empty_world) in
  ("a:b", "c") <> ("a", "b:c") /\
  fst (append_message 20 demo_clock "a:b" "c" "user" "hello" empty_world) = Ok tt /\
  fst (get_chat_history "a" "b:c" w1)
    = Ok [ {| role := "user"; content := "hello"; ts := 0%Z |} ] /\
  fst (get_chat_history "a" "b:c" w1) <> Ok [].
Proof.
  cbv zeta. split; [discriminate|]. split; [vm_compute; reflexivity|].
  assert (E : fst (get_chat_history "a" "b:c"
                     (snd (append_message 20 demo_clock "a:b" "c" "user" "hello"
                             empty_world)))
              = Ok [ {| role := "user"; content := "hello"; ts := 0%Z |} ])
    by (vm_compute; reflexivity).
  split; [exact E|]. rewrite E. discriminate.
Qed.

(** C10 and the window: with MAX_CONTEXT = -1 a send-message call that
    names a chat is served and streams the reply, but every append is
    trimmed away at once, so that nothing is recorded under the chat:
    its history key is absent afterwards. *)
Lemma negative_window_records_nothing :
  let run := send_message (-1) demo_clock demo_uuid4 no_features provider_three
               (hello_in "nowhere") empty_world in
  fst run = Ok ["Hi "; "there" +:+ nl; " friend"] /\
  fst (get_chat_history "u1" "nowhere" (snd run)) = Ok [] /\
  db (snd run) !! chat_history_key "u1" "nowhere" = None.
Proof.
  cbv zeta. split; [vm_compute; reflexivity|]. split; vm_compute; reflexivity.
Qed.

(** ** Concrete runs of the further properties *)

Definition kya_request : send_request :=
  {| req_uid := Some "u1"; req_chat_id := None; req_message := Some "kya kar rahe ho" |}.

(** A generator that draws the same UUID every time. *)
Definition stuck_uuid4 (n : nat) : N := (3735928559 * 2 ^ 96)%N.

(** X9, an instance: the first visit of user u1. *)
Lemma index_ensures_a_chat_witness :
  wf empty_world /\
  exists ctx w',
    index demo_clock demo_uuid4 (Some "u1") empty_world = (Ok ctx, w') /\
    index_chats ctx <> [] /\
    index demo_clock demo_uuid4 (Some "u1") w' = (Ok ctx, w').
Proof.
  split; [exact wf_empty_world|].
  destruct (index_ensures_a_chat demo_clock demo_uuid4 empty_world (Some "u1") wf_empty_world)
    as (ctx & w' & H1 & _ & _ & H2 & _ & _ & _ & H3).
  exists ctx, w'. auto.
Defined.

(** X10, an instance: four chats for a new user, the second one
    titled, the third one with an empty title. *)
Lemma creations_listed_in_order_witness :
  list_user_chats "u1" empty_world = (Ok [], empty_world) /\
  exists w',
    run_creates demo_clock demo_uuid4 "u1" [None; Some "Plans"; Some ""; None] empty_world
      = (Ok ["deadbeef"; "deadbeef"; "deadbeef"; "deadbeef"], w') /\
    list_user_chats "u1" w' =
      (Ok [ {| chat_id := "deadbeef"; title := "Chat 1"; created := 0%Z |};
            {| chat_id := "deadbeef"; title := "Plans"; created := 1%Z |};
            {| chat_id := "deadbeef"; title := "Chat 3"; created := 2%Z |};
            {| chat_id := "deadbeef"; title := "Chat 4"; created := 3%Z |} ], w').
Proof.
  assert (Hl : list_user_chats "u1" empty_world = (Ok [], empty_world)) by reflexivity.
  split; [exact Hl|].
  exact (proj1 (creations_listed_in_order demo_clock demo_uuid4 empty_world "u1" []
                  [None; Some "Plans"; Some ""; None] Hl)).
Defined.

(** X11, an instance: a generator that repeats itself. *)
Lemma chat_ids_can_repeat_witness :
  list_user_chats "u1" empty_world = (Ok [], empty_world) /\
  exists cid w' r1 r2,
    run_creates demo_clock stuck_uuid4 "u1" [None; None] empty_world = (Ok [cid; cid], w') /\
    list_user_chats "u1" w' = (Ok [r1; r2], w') /\
    chat_id r1 = cid /\ chat_id r2 = cid.
Proof.
  assert (Hl : list_user_chats "u1" empty_world = (Ok [], empty_world)) by reflexivity.
  split; [exact Hl|].
  exact (proj2 (chat_ids_can_repeat demo_clock stuck_uuid4 empty_world "u1" []) Hl eq_refl).
Defined.

(** X12, an instance: a window of 2 that holds one message. *)
Lemma window_slides_witness :
  let w1 := snd (append_message 2 demo_clock "u1" "c1" "user" "a" empty_world) in
  let a := {| role := "user"; content := "a"; ts := 0%Z |} in
  (1 <= 2)%Z /\ holds_history w1 "u1" "c1" [a] /\ (Z.of_nat (length [a]) <= 2)%Z /\
  exists w',
    run_appends 2 demo_clock (map (call_on "u1" "c1") [("assistant", "b"); ("user", "c")]) w1
      = (Ok tt, w') /\
    get_chat_history "u1" "c1" w' =
      (Ok [ {| role := "assistant"; content := "b"; ts := 1%Z |};
            {| role := "user"; content := "c"; ts := 2%Z |} ], w').
Proof.
  cbv zeta.
  set (w1 := snd (append_message 2 demo_clock "u1" "c1" "user" "a" empty_world)).
  set (a := {| role := "user"; content := "a"; ts := 0%Z |}).
  assert (Hh : holds_history w1 "u1" "c1" [a]).
  { split; [vm_compute; reflexivity|]. intros v. vm_compute. discriminate. }
  split; [lia|]. split; [exact Hh|]. split; [cbn; lia|].
  exact (proj1 (window_slides 2 demo_clock w1 "u1" "c1" [a] ltac:(lia) Hh ltac:(cbn; lia))
               [("assistant", "b"); ("user", "c")]).
Defined.

(** X13, an instance: a window of 0 keeps the three messages. *)
Lemma window_of_zero_or_less_witness :
  holds_history empty_world "u1" "c1" [] /\
  exists w',
    run_appends 0 demo_clock
      (map (call_on "u1" "c1") [("user", "a"); ("assistant", "b"); ("user", "c")])
      empty_world = (Ok tt, w') /\
    get_chat_history "u1" "c1" w' =
      (Ok [ {| role := "user"; content := "a"; ts := 0%Z |};
            {| role := "assistant"; content := "b"; ts := 1%Z |};
            {| role := "user"; content := "c"; ts := 2%Z |} ], w').
Proof.
  assert (Hh : holds_history empty_world "u1" "c1" [])
    by (apply holds_history_absent, lookup_empty).
  split; [exact Hh|].
  exact (proj1 (window_of_zero_or_less 0 demo_clock empty_world "u1" "c1" [] Hh) eq_refl
               [("user", "a"); ("assistant", "b"); ("user", "c")]).
Defined.

(** X14, the scenario: "kya kar rahe ho" from a user without language. *)
Lemma language_follows_last_message_witness :
  wf empty_world /\ strip (default "" (req_message kya_request)) <> "" /\
  exists frags w',
    send_message 20 demo_clock demo_uuid4 no_features provider_three kya_request empty_world
      = (Ok frags, w') /\
    Redis.get (user_lang_key "u1") w' = (Ok (Some (Plain "hi")), w').
Proof.
  assert (Hm : strip (default "" (req_message kya_request)) <> "")
    by (vm_compute; discriminate).
  split; [exact wf_empty_world|]. split; [exact Hm|].
  destruct (language_follows_last_message 20 demo_clock demo_uuid4 no_features provider_three
              empty_world kya_request wf_empty_world Hm)
    as (frags & w' & lang & Hrun & Hd & Hget).
  assert (E : detect_lang_safe no_features (strip (default "" (req_message kya_request)))
              = Ok "hi") by (vm_compute; reflexivity).
  rewrite E in Hd. injection Hd as <-.
  exists frags, w'. split; [exact Hrun | exact Hget].
Defined.

(** A provider that streams its prompt back in one fragment. *)
Definition provider_echo (prompt : string) : result stream :=
  Ok {| chunks := [ {| chunk_text := AttrValue prompt; chunk_str := EmptyString |} ];
        ending := None |}.

(** X15, an instance: "hello" in a chat that holds one exchange, the
    prompt being read off the provider that streams it back. *)
Lemma provider_gets_windowed_prompt_witness :
  let w0 := snd (send_message 20 demo_clock demo_uuid4 no_features provider_three
                   (hello_in "c1") empty_world) in
  wf w0 /\ strip (default "" (req_message (hello_in "c1"))) <> "" /\
  (exists cid w1 h lang,
     api_send 20 demo_clock demo_uuid4 no_features provider_echo (hello_in "c1") w0
       = respond 20 demo_clock "u1" cid
           (provider_echo (build_prompt (join nl (map context_line h)) lang "hello")) w1 /\
     get_chat_history "u1" cid w1 = (Ok h, w1) /\
     (Z.of_nat (length h) <= 20)%Z) /\
  fst (send_message 20 demo_clock demo_uuid4 no_features provider_echo (hello_in "c1") w0)
  = Ok [ "You are Ira, a warm and affectionate companion. Follow these rules strictly:"
         +:+ nl +:+
         "- Reply in 5 to 10 words only." +:+ nl +:+
         "- Keep responses incomplete (do not end with a final punctuation)." +:+ nl +:+
         "- Tone: friendly, caring, sometimes romantic when appropriate; add emoji naturally."
         +:+ nl +:+
         "- Sound like a close friend and ask gentle follow-up questions when needed."
         +:+ nl +:+
         "- Mirror the user's language. The user's last language code: en" +:+ nl +:+
         "- Avoid repeating earlier assistant replies." +:+ nl +:+
         "- Use the conversation context below." +:+ nl +:+ nl +:+
         "Conversation:" +:+ nl +:+
         "user: hello" +:+ nl +:+
         "assistant: Hi there friend" +:+ nl +:+
         "user: hello" +:+ nl +:+ nl +:+
         "User: hello" +:+ nl +:+ "Assistant:" ].
Proof.
  cbv zeta.
  set (w0 := snd (send_message 20 demo_clock demo_uuid4 no_features provider_three
                    (hello_in "c1") empty_world)).
  assert (Hm : strip (default "" (req_message (hello_in "c1"))) <> "")
    by (vm_compute; discriminate).
  assert (Hwf : wf w0).
  { eapply (send_message_wf 20 demo_clock demo_uuid4 no_features provider_three
              empty_world (hello_in "c1")); [exact wf_empty_world|].
    subst w0. apply surjective_pairing. }
  split; [exact Hwf|]. split; [exact Hm|]. split.
  - destruct (provider_gets_windowed_prompt 20 demo_clock demo_uuid4 no_features provider_echo
                w0 (hello_in "c1") Hwf Hm)
      as (cid & w1 & h & lang & Hapi & _ & Hget & _ & Hlen).
    exists cid, w1, h, lang. split; [exact Hapi|]. split; [exact Hget|]. apply Hlen. lia.
  - vm_compute. reflexivity.
Defined.

(** X16, an instance: the first message of a new user. *)
Lemma send_without_chat_opens_one_witness :
  wf empty_world /\ strip (default "" (req_message kya_request)) <> "" /\
  no_chat_id kya_request /\
  list_user_chats "u1" empty_world = (Ok [], empty_world) /\
  exists frags w',
    send_message 20 demo_clock demo_uuid4 no_features provider_three kya_request empty_world
      = (Ok frags, w') /\
    list_user_chats "u1" w' =
      (Ok [ {| chat_id := "deadbeef"; title := "Chat 1"; created := 0%Z |} ], w').
Proof.
  assert (Hm : strip (default "" (req_message kya_request)) <> "")
    by (vm_compute; discriminate).
  assert (Hno : no_chat_id kya_request) by (left; reflexivity).
  assert (Hl : list_user_chats "u1" empty_world = (Ok [], empty_world)) by reflexivity.
  split; [exact wf_empty_world|]. split; [exact Hm|]. split; [exact Hno|].
  split; [exact Hl|].
  destruct (send_without_chat_opens_one 20 demo_clock demo_uuid4 no_features provider_three
              empty_world kya_request [] wf_empty_world Hm Hno Hl)
    as (frags & w' & h & Hrun & _ & Hlist & _).
  exists frags, w'. split; [exact Hrun | exact Hlist].
Defined.

(** X17, an instance: user u1 writes, user u2 is not touched. *)
Lemma send_message_stays_in_its_chat_witness :
  wf empty_world /\ strip (default "" (req_message (hello_in "c1"))) <> "" /\
  exists frags w',
    send_message 20 demo_clock demo_uuid4 no_features provider_three (hello_in "c1")
      empty_world = (Ok frags, w') /\
    fst (list_user_chats "u2" w') = fst (list_user_chats "u2" empty_world) /\
    fst (Redis.get (user_lang_key "u2") w') = fst (Redis.get (user_lang_key "u2") empty_world).
Proof.
  assert (Hm : strip (default "" (req_message (hello_in "c1"))) <> "")
    by (vm_compute; discriminate).
  split; [exact wf_empty_world|]. split; [exact Hm|].
  destruct (send_message_stays_in_its_chat 20 demo_clock demo_uuid4 no_features provider_three
              empty_world (hello_in "c1") wf_empty_world Hm)
    as (cid & frags & w' & Hrun & _ & Hother & _).
  exists frags, w'. split; [exact Hrun|]. apply Hother. discriminate.
Defined.

(** X18, an instance: a reply made of a blank and a newline. *)
Lemma blank_reply_not_stored_witness :
  let s := {| chunks := [ {| chunk_text := AttrValue " "; chunk_str := "" |};
                          {| chunk_text := AttrValue nl; chunk_str := "" |} ];
              ending := None |} in
  all_chars is_space (cat (pieces_before (chunks s))) = true /\
  event_stream 20 demo_clock "u1" "c1" s empty_world = (Ok [" "; nl], empty_world).
Proof.
  cbv zeta. split; [reflexivity|].
  exact (proj1 (blank_reply_not_stored 20 demo_clock empty_world "u1" "c1"
                  {| chunks := [ {| chunk_text := AttrValue " "; chunk_str := "" |};
                                 {| chunk_text := AttrValue nl; chunk_str := "" |} ];
                     ending := None |} eq_refl)).
Defined.

(** X19, an instance: the second chunk cannot be read. *)
Lemma stream_stops_at_first_exception_witness :
  let ok := {| chunk_text := AttrValue "Hi"; chunk_str := "" |} in
  let bad := {| chunk_text := AttrRaises (PyException "ValueError" "blocked");
                chunk_str := "" |} in
  piece_of bad = Raise (PyException "ValueError" "blocked") /\
  event_stream 20 demo_clock "u1" "c1" {| chunks := [ok] ++ bad :: [ok; ok]; ending := None |}
    empty_world
  = event_stream 20 demo_clock "u1" "c1" {| chunks := [ok] ++ [bad]; ending := None |}
      empty_world.
Proof.
  cbv zeta. split; [reflexivity|].
  exact (proj1 (stream_stops_at_first_exception 20 demo_clock empty_world "u1" "c1"
                  [ {| chunk_text := AttrValue "Hi"; chunk_str := "" |} ]
                  [ {| chunk_text := AttrValue "Hi"; chunk_str := "" |};
                    {| chunk_text := AttrValue "Hi"; chunk_str := "" |} ]
                  {| chunk_text := AttrRaises (PyException "ValueError" "blocked");
                     chunk_str := "" |}
                  (PyException "ValueError" "blocked") None None eq_refl)).
Defined.

(** X20, the scenario read back: "hello" and the three fragments. *)
Lemma conversation_reads_back_witness :
  wf empty_world /\ (2 <= 20)%Z /\
  strip (default "" (req_message (hello_in "c1"))) <> "" /\
  exists frags w' ctx,
    send_message 20 demo_clock demo_uuid4 no_features provider_three (hello_in "c1")
      empty_world = (Ok frags, w') /\
    open_chat (Some "u1") "c1" w' = (Ok ctx, w') /\ ctx_cid ctx = "c1".
Proof.
  assert (Hm : strip (default "" (req_message (hello_in "c1"))) <> "")
    by (vm_compute; discriminate).
  split; [exact wf_empty_world|]. split; [lia|]. split; [exact Hm|].
  destruct (conversation_reads_back 20 demo_clock demo_uuid4 no_features provider_three
              empty_world (hello_in "c1") "c"%char "1" wf_empty_world ltac:(lia) eq_refl Hm)
    as (frags & w' & ctx & pre & tu & ta & Hrun & Hopen & Hcid & _).
  exists frags, w', ctx. auto.
Defined.

(** X4, two instances: the single keyword "Kya" does not make a text
    Hindi when the detector gives up, and a statistical code "hi-Latn"
    makes the one word "hello" Hindi. *)
Lemma short_text_left_to_statistics_witness :
  (length (tokens (lowercased "Kya?")) <= 1 /\
   matching_tokens hindi_keywords "Kya?" + matching_tokens english_words "Kya?" <= 1 /\
   ~ hindi_code (no_features "Kya?") /\
   detect_lang_safe no_features "Kya?" = Ok "en") /\
  (length (tokens (lowercased "hello")) <= 1 /\
   hindi_code (answers "hi-Latn" "hello") /\
   detect_lang_safe (answers "hi-Latn") "hello" = Ok "hi").
Proof.
  assert (Hw : length (tokens (lowercased "Kya?")) <= 1) by (vm_compute; lia).
  assert (Hv : length (tokens (lowercased "hello")) <= 1) by (vm_compute; lia).
  destruct (short_text_left_to_statistics no_features "Kya?" Hw) as (Hh & _ & Hen).
  destruct (short_text_left_to_statistics (answers "hi-Latn") "hello" Hv) as (_ & Hhi & _).
  assert (Hno : ~ hindi_code (no_features "Kya?")).
  { intros (rest & E). discriminate E. }
  assert (Hyes : hindi_code (answers "hi-Latn" "hello")) by (exists "-Latn"; reflexivity).
  split.
  - split; [exact Hw|]. split; [exact Hh|]. split; [exact Hno|]. apply Hen, Hno.
  - split; [exact Hv|]. split; [exact Hyes|]. apply Hhi, Hyes.
Defined.

(** X8, an instance: reading a chat that nobody has written to. *)
Lemma read_routes_write_nothing_witness :
  wf empty_world /\
  api_chats (Some "u1") empty_world = (Ok [], empty_world) /\
  open_chat (Some "u1") "nowhere" empty_world =
    (Ok {| ctx_chats := []; ctx_cid := "nowhere"; ctx_uid := "u1"; ctx_history := [] |},
     empty_world).
Proof.
  split; [exact wf_empty_world|].
  destruct (read_routes_write_nothing empty_world (Some "u1") "nowhere") as (_ & _ & H).
  destruct (H wf_empty_world) as (l & h & Hl & Hh & Ha & Ho).
  assert (El : l = []) by (vm_compute in Hl; congruence).
  assert (Eh : h = []) by (vm_compute in Hh; congruence).
  subst l h. split; [exact Ha | exact Ho].
Defined.
